(** * S3 lifecycle optimizer: a shallow embedding of [s3_optimizer.py]

    The development follows the source file top to bottom.  The Python
    class [S3LifecycleOptimizer] talks to two provider clients (storage and
    metrics), prints to the terminal and writes a CSV report.  Those effects
    are threaded through a state-and-exception monad over a [World] record;
    the arithmetic of the cost model is pure.

    Numbers.  Sizes and amounts of money are Python numbers (the metric
    averages are floating point).  They are embedded as exact rationals
    ([Qc], canonical fractions, so that equality is Leibniz equality):
    rounding error, overflow and NaN of binary floating point are outside
    the model.  Object counts are Python [int]s and are embedded as [Z].

    Strings.  Bucket names are Rocq strings (sequences of 8-bit characters);
    [str.lower] is modelled on the ASCII letters, which is the alphabet of
    bucket names.

    The provider library.  A provider call answers or raises.  The storage
    client offers a fixed set of exception classes as attributes of its
    [exceptions] object; naming a class outside that set raises
    [AttributeError], as every attribute lookup does.

    The clock.  [datetime.now()] reads the clock of the world.  The readings of one
    run are taken to coincide: the clock is the time of the run. *)

From Stdlib Require Import ZArith QArith Qcanon Qround String Ascii DecimalString.
From Stdlib Require DecimalNat.
From stdpp Require Import base option list gmap strings numbers.

Local Open Scope Z_scope.
Local Open Scope Qc_scope.

(* ===================================================================== *)
(** ** Python numbers *)
(* ===================================================================== *)

Module Num.

(** The fraction [n / d] as a number of the model. *)
Definition frac (n : Z) (d : positive) : Qc := Q2Qc (n # d).

Definition of_Z (n : Z) : Qc := Q2Qc (inject_Z n).

(** [1024 ** 3] *)
Definition GiB : Qc := of_Z (1024 ^ 3).

(** [1024 ** 4] *)
Definition TiB : Qc := of_Z (1024 ^ 4).

(** [x < y] and [x > y] on Python numbers. *)
Definition ltb (x y : Qc) : bool := bool_decide (x < y).
Definition gtb (x y : Qc) : bool := bool_decide (y < x).

(** [int(x)]: truncation towards zero. *)
Definition py_int (x : Qc) : Z :=
  if ltb x 0 then Qceiling x else Qfloor x.

(** Rounding to the nearest integer, ties to the even neighbour. *)
Definition round_half_even (x : Qc) : Z :=
  let f := Qfloor x in
  let r := x - of_Z f in
  if ltb r (frac 1 2) then f
  else if ltb (frac 1 2) r then (f + 1)%Z
  else if Z.even f then f else (f + 1)%Z.

(** [round(x, ndigits)] for a non-negative [ndigits], on the exact value.
    Python rounds the binary floating-point value, which can lie on the other
    side of a tie than the exact one; the two agree on zero, and the
    statements below rely on the rounded fields of a record only there. *)
Definition py_round (x : Qc) (ndigits : nat) : Qc :=
  let scale := of_Z (10 ^ Z.of_nat ndigits) in
  of_Z (round_half_even (x * scale)) / scale.

End Num.

(* ===================================================================== *)
(** ** Python strings *)
(* ===================================================================== *)

Module Str.

(** [c.lower()] on one character: the letters A..Z move to a..z. *)
Definition lower_char (c : ascii) : ascii :=
  let n := N_of_ascii c in
  if ((65 <=? n) && (n <=? 90))%N then ascii_of_N (n + 32) else c.

(** [s.lower()] *)
Fixpoint lower (s : string) : string :=
  match s with
  | EmptyString => EmptyString
  | String c t => String (lower_char c) (lower t)
  end.

(** [needle in hay]: [needle] occurs in [hay] as a contiguous substring. *)
Fixpoint str_in (needle hay : string) : bool :=
  String.prefix needle hay
  || match hay with
     | EmptyString => false
     | String _ t => str_in needle t
     end.

(** [f'{n}'] for a non-negative integer: its decimal numeral. *)
Definition of_nat (n : nat) : string :=
  NilEmpty.string_of_uint (Nat.to_uint n).

(** Truthiness of a string: empty strings are false. *)
Definition truthy (s : string) : bool :=
  match s with EmptyString => false | String _ _ => true end.

(** What "case-insensitive substring match" means, independently of how
    the code tests it: some contiguous part of [name] equals [pat] up to
    the case of its letters. *)
Definition ci_substring (pat name : string) : Prop :=
  exists pre mid post : string,
    name = String.append pre (String.append mid post)
    /\ lower mid = lower pat.

End Str.

(* ===================================================================== *)
(** ** Data model *)
(* ===================================================================== *)

(** An entry of [recommendation['transitions']]. *)
Record Transition := {
  days : Z;
  storage_class : string;
}.

(** The dictionary built by [recommend_lifecycle_policy]. *)
Record Recommendation := {
  strategy : string;
  transitions : list Transition;
  estimated_cost : Qc;
  savings_percentage : Z;
}.

(** Provider-shaped lifecycle rules, as built by [generate_lifecycle_policy]
    and as stored by the provider. *)
Record RuleTransition := {
  Days : Z;
  StorageClass : string;
}.

Record Rule := {
  Id : string;
  Status : string;
  Transitions : list RuleTransition;
}.

Record Policy := {
  Rules : list Rule;
}.

(** An entry of the bucket listing. *)
Record Bucket := {
  Name : string;
}.

(** One row of the audit report.  The keys are those of the dictionary
    appended to [audit_results]. *)
Module AuditRecord.
Record t := {
  bucket_name : string;
  size_gb : Qc;
  object_count : Z;
  has_lifecycle : bool;
  current_cost : Qc;
  recommendation : string;
  potential_savings : Qc;
}.
End AuditRecord.

(** The configuration loaded from the YAML file: nested dictionaries, read
    as [config['analysis']['storage_costs'][storage_class]]. *)
Abbreviation Config := (gmap string (gmap string (gmap string Qc))).

(** The optimizer object: [self].  The two provider clients are process-wide
    handles to the outside world and live in [World]. *)
Record Optimizer := {
  config : Config;
}.

(* ===================================================================== *)
(** ** Exceptions *)
(* ===================================================================== *)

(** The exceptions (all subclasses of [Exception]) that the modelled code can
    meet.  [ProviderError] stands for an exception raised by a provider call,
    with the error code the provider gave; [AttributeError] is what the
    lookup of a missing attribute raises. *)
Inductive exn :=
| ProviderError (msg : string)
| KeyError (key : string)
| OSError (msg : string)
| AttributeError (name : string).

(** The name of the class of an exception.  The provider library raises its
    errors as [ClientError]. *)
Definition class_name (e : exn) : string :=
  match e with
  | ProviderError _ => "ClientError"
  | KeyError _ => "KeyError"
  | OSError _ => "OSError"
  | AttributeError _ => "AttributeError"
  end.

(** [isinstance(e, cls)] for a class given by its name. *)
Definition isinstance (e : exn) (cls : string) : bool :=
  String.eqb (class_name e) cls.

Inductive result (A : Type) :=
| Ok (a : A)
| Raise (e : exn).
Arguments Ok {A} a.
Arguments Raise {A} e.

Definition result_bind {A B} (r : result A) (k : A -> result B) : result B :=
  match r with
  | Ok a => k a
  | Raise e => Raise e
  end.

Notation "'let?' x ':=' r 'in' k" := (result_bind r (fun x => k))
  (at level 10, x pattern, r at level 100, k at level 200, only parsing).

(** [d[k]] on a dictionary. *)
Definition getitem {V} (d : gmap string V) (k : string) : result V :=
  match d !! k with
  | Some v => Ok v
  | None => Raise (KeyError k)
  end.

(* ===================================================================== *)
(** ** The outside world *)
(* ===================================================================== *)

(** Request and response of the metrics query. *)
Record MetricRequest := {
  Namespace : string;
  MetricName : string;
  Dimensions : list (string * string);
  StartTime : Z;
  EndTime : Z;
  Period : Z;
  Statistics : list string;
}.

Record Datapoint := {
  Average : Qc;
}.

Record MetricResponse := {
  Datapoints : list Datapoint;
}.

(** Response of the lifecycle read; the ['Rules'] key may be missing. *)
Record LifecycleResponse := {
  resp_Rules : option (list Rule);
}.

(** The provider: what each of its four operations answers.  An answer is a
    response or an exception. *)
Record Provider := {
  on_list_buckets : result (list Bucket);
  on_get_bucket_lifecycle_configuration : string -> result LifecycleResponse;
  on_get_metric_statistics : MetricRequest -> result MetricResponse;
  on_put_bucket_lifecycle_configuration : string -> Policy -> option exn;
}.

(** A request sent to the provider. *)
Inductive ApiCall :=
| CallListBuckets
| CallGetBucketLifecycleConfiguration (Bucket : string)
| CallGetMetricStatistics (request : MetricRequest)
| CallPutBucketLifecycleConfiguration (Bucket : string)
                                      (LifecycleConfiguration : Policy).

(** The CSV file written by [export_to_csv]: header, then one row per
    record. *)
Record CsvFile := {
  fieldnames : list string;
  rows : list AuditRecord.t;
}.

(** One [print] call: which statement printed, and the values it formatted. *)
Inductive Line :=
| LnLifecycleError (bucket_name : string) (e : exn)
| LnAuditTitle
| LnGenerated (now : Z)
| LnSeparator
| LnFound (n : nat)
| LnAnalyzing (bucket_name : string)
| LnSize (size_gb : Qc)
| LnObjects (object_count : Z)
| LnLifecyclePolicy (has_lifecycle : bool)
| LnCurrentCost (current_cost : Qc)
| LnRecommendation (strategy : string)
| LnPotentialSavings (savings : Qc) (savings_percentage : Z)
| LnSummaryTitle
| LnTotalBuckets (n : nat)
| LnBucketsWithoutLifecycle (n : Z)
| LnTotalStorage (tb : Qc)
| LnCurrentMonthlyCost (total_cost : Qc)
| LnPotentialMonthlySavings (total_savings : Qc)
| LnPotentialAnnualSavings (annual : Qc)
| LnDryRun (bucket_name : string)
| LnPolicyJson (policy : Policy)
| LnApplied (bucket_name : string)
| LnApplyFailed (bucket_name : string) (e : exn)
| LnReportSaved (output_file : string)
| LnApplyNotImplemented.

Record World := {
  provider : Provider;
  api_calls : list ApiCall;
  clock : Z;
  config_files : string -> result Config;
  open_for_write_fault : string -> option exn;
  files : gmap string CsvFile;
  stdout : list Line;
}.

(* ===================================================================== *)
(** ** The monad of the program: state and exceptions *)
(* ===================================================================== *)

Definition M (A : Type) : Type := World -> result A * World.

Definition ret {A} (a : A) : M A := fun w => (Ok a, w).

Definition raise {A} (e : exn) : M A := fun w => (Raise e, w).

Definition bind {A B} (m : M A) (k : A -> M B) : M B :=
  fun w =>
    match m w with
    | (Ok a, w') => k a w'
    | (Raise e, w') => (Raise e, w')
    end.

Notation "'let!' x ':=' m 'in' k" := (bind m (fun x => k))
  (at level 10, x pattern, m at level 100, k at level 200, only parsing).

Notation "m ';;' k" := (bind m (fun _ => k))
  (at level 100, k at level 200, right associativity, only parsing).

(** A pure computation that may raise. *)
Definition lift {A} (r : result A) : M A := fun w => (r, w).

(** [try: body  except Exception as e: handler(e)].  What the body did to
    the world before it raised stays done. *)
Definition try_except {A} (body : M A) (handler : exn -> M A) : M A :=
  fun w =>
    match body w with
    | (Ok a, w') => (Ok a, w')
    | (Raise e, w') => handler e w'
    end.

(** [try: body  except <class>: first  except Exception as e: other(e)],
    where the class of the first clause is written as an expression.  Python
    evaluates that expression when an exception of the body reaches the
    clause.  When the evaluation itself raises, the new exception leaves the
    [try] statement: the clauses that follow belong to the same [try] and do
    not handle it. *)
Definition try_except_class {A} (body : M A) (class : result string)
    (first : M A) (other : exn -> M A) : M A :=
  fun w =>
    match body w with
    | (Ok a, w') => (Ok a, w')
    | (Raise e, w') =>
        match class with
        | Ok cls => if isinstance e cls then first w' else other e w'
        | Raise lookup_error => (Raise lookup_error, w')
        end
    end.

(** [for x in xs: s = body(x, s)] *)
Fixpoint for_each {A S} (xs : list A) (body : A -> S -> M S) (s : S) : M S :=
  match xs with
  | [] => ret s
  | x :: xs' => let! s' := body x s in for_each xs' body s'
  end.

(** The world after one more line on the terminal. *)
Definition add_line (l : Line) (w : World) : World :=
  {| provider := provider w; api_calls := api_calls w; clock := clock w;
     config_files := config_files w;
     open_for_write_fault := open_for_write_fault w; files := files w;
     stdout := stdout w ++ [l] |}.

Definition print (l : Line) : M unit :=
  fun w => (Ok tt, add_line l w).

(** [datetime.now()], in seconds.  The clock is part of the world; the
    readings of one run are taken to coincide. *)
Definition datetime_now : M Z := fun w => (Ok (clock w), w).

(** Every provider operation first records that the provider was
    contacted. *)
Definition contact (c : ApiCall) (p : Provider) : M unit :=
  fun w =>
    (Ok tt,
     {| provider := p; api_calls := api_calls w ++ [c]; clock := clock w;
        config_files := config_files w;
        open_for_write_fault := open_for_write_fault w; files := files w;
        stdout := stdout w |}).

Definition the_provider : M Provider := fun w => (Ok (provider w), w).

Module s3_client.

(** The classes found under [s3_client.exceptions]: [ClientError] and the
    error classes of the library's description of the storage service.  What
    matters below is that no class is named "NoSuchLifecycleConfiguration":
    the service reports a bucket without lifecycle configuration as a
    [ClientError] whose error code is that name. *)
Definition exception_classes : list string :=
  [ "ClientError"; "BucketAlreadyExists"; "BucketAlreadyOwnedByYou";
    "InvalidObjectState"; "NoSuchBucket"; "NoSuchKey"; "NoSuchUpload";
    "ObjectAlreadyInActiveTierError"; "ObjectNotInActiveTierError" ].

(** [s3_client.exceptions.<name>] *)
Definition exceptions (name : string) : result string :=
  if existsb (String.eqb name) exception_classes then Ok name
  else Raise (AttributeError name).

Definition list_buckets : M (list Bucket) :=
  let! p := the_provider in
  contact CallListBuckets p;;
  lift (on_list_buckets p).

Definition get_bucket_lifecycle_configuration (Bucket : string)
  : M LifecycleResponse :=
  let! p := the_provider in
  contact (CallGetBucketLifecycleConfiguration Bucket) p;;
  lift (on_get_bucket_lifecycle_configuration p Bucket).

(** A write the provider accepts replaces the configuration it holds for
    the bucket; a write it refuses raises and changes nothing. *)
Definition put_bucket_lifecycle_configuration
    (Bucket : string) (LifecycleConfiguration : Policy) : M unit :=
  let! p := the_provider in
  match on_put_bucket_lifecycle_configuration p Bucket
          LifecycleConfiguration with
  | Some e =>
      contact (CallPutBucketLifecycleConfiguration Bucket
                 LifecycleConfiguration) p;;
      raise e
  | None =>
      contact (CallPutBucketLifecycleConfiguration Bucket
                 LifecycleConfiguration)
        {| on_list_buckets := on_list_buckets p;
           on_get_bucket_lifecycle_configuration := fun b =>
             if String.eqb b Bucket
             then Ok {| resp_Rules := Some (Rules LifecycleConfiguration) |}
             else on_get_bucket_lifecycle_configuration p b;
           on_get_metric_statistics := on_get_metric_statistics p;
           on_put_bucket_lifecycle_configuration :=
             on_put_bucket_lifecycle_configuration p |}
  end.

End s3_client.

Module cloudwatch.

Definition get_metric_statistics (request : MetricRequest)
  : M MetricResponse :=
  let! p := the_provider in
  contact (CallGetMetricStatistics request) p;;
  lift (on_get_metric_statistics p request).

End cloudwatch.

(* ===================================================================== *)
(** ** class S3LifecycleOptimizer *)
(* ===================================================================== *)

(** [timedelta(days=n)], in seconds. *)
Definition timedelta_days (n : Z) : Z := (n * 86400)%Z.

(** [__init__]: load the configuration file.  A file that cannot be read or
    parsed raises.  The two clients built after the load are the provider
    handle of [World]; their construction is taken to succeed. *)
Definition init (config_file : string) : M Optimizer :=
  fun w =>
    (let? cfg := config_files w config_file in Ok {| config := cfg |}, w).

Definition get_all_buckets : M (list Bucket) :=
  s3_client.list_buckets.

Definition get_bucket_lifecycle (bucket_name : string)
  : M (option (list Rule)) :=
  try_except_class
    (let! response := s3_client.get_bucket_lifecycle_configuration bucket_name in
     ret (Some (default [] (resp_Rules response))))
    (s3_client.exceptions "NoSuchLifecycleConfiguration")
    (ret None)
    (fun e => print (LnLifecycleError bucket_name e);; ret None).

Definition get_bucket_size (bucket_name : string) : M Qc :=
  try_except
    (let! start_now := datetime_now in
     let! end_now := datetime_now in
     let! response :=
       cloudwatch.get_metric_statistics
         {| Namespace := "AWS/S3";
            MetricName := "BucketSizeBytes";
            Dimensions := [("BucketName", bucket_name);
                           ("StorageType", "StandardStorage")];
            StartTime := (start_now - timedelta_days 2)%Z;
            EndTime := end_now;
            Period := 86400;
            Statistics := ["Average"] |} in
     match Datapoints response with
     | d :: _ => ret (Average d)
     | [] => ret 0
     end)
    (fun e => ret 0).

Definition get_bucket_object_count (bucket_name : string) : M Z :=
  try_except
    (let! start_now := datetime_now in
     let! end_now := datetime_now in
     let! response :=
       cloudwatch.get_metric_statistics
         {| Namespace := "AWS/S3";
            MetricName := "NumberOfObjects";
            Dimensions := [("BucketName", bucket_name);
                           ("StorageType", "AllStorageTypes")];
            StartTime := (start_now - timedelta_days 2)%Z;
            EndTime := end_now;
            Period := 86400;
            Statistics := ["Average"] |} in
     match Datapoints response with
     | d :: _ => ret (Num.py_int (Average d))
     | [] => ret 0%Z
     end)
    (fun e => ret 0%Z).

Section Methods.

Variable self : Optimizer.

Definition calculate_current_cost (size_bytes : Qc) (storage_class : string)
  : result Qc :=
  let size_gb := size_bytes / Num.GiB in
  let? analysis := getitem (config self) "analysis" in
  let? storage_costs := getitem analysis "storage_costs" in
  let? cost_per_gb := getitem storage_costs storage_class in
  Ok (size_gb * cost_per_gb).

Definition recommend_lifecycle_policy
    (bucket_name : string) (size_bytes : Qc) (object_count : Z)
  : result (option Recommendation * Qc) :=
  let size_gb := size_bytes / Num.GiB in
  if Num.ltb size_gb 1 then Ok (None, 0)
  else
    let? current_cost := calculate_current_cost size_bytes "standard" in
    let recommendation :=
      if Str.str_in "log" (Str.lower bucket_name)
         || Str.str_in "backup" (Str.lower bucket_name)
      then
        {| strategy := "Intelligent-Tiering + Glacier";
           transitions :=
             [ {| days := 30; storage_class := "INTELLIGENT_TIERING" |};
               {| days := 90; storage_class := "GLACIER_IR" |} ];
           estimated_cost := size_gb * Num.frac 4 1000;
           savings_percentage := 83 |}
      else if Str.str_in "archive" (Str.lower bucket_name)
      then
        {| strategy := "Deep Archive";
           transitions :=
             [ {| days := 0; storage_class := "DEEP_ARCHIVE" |} ];
           estimated_cost := size_gb * Num.frac 99 100000;
           savings_percentage := 96 |}
      else
        {| strategy := "Intelligent-Tiering";
           transitions :=
             [ {| days := 30; storage_class := "INTELLIGENT_TIERING" |} ];
           estimated_cost := size_gb * Num.frac 25 10000;
           savings_percentage := 89 |}
    in
    let savings := current_cost - estimated_cost recommendation in
    Ok (Some recommendation, savings).

(** The local variables of [audit_buckets] that the loop updates. *)
Record AuditLocals := {
  audit_results : list AuditRecord.t;
  total_size : Qc;
  total_cost : Qc;
  total_savings : Qc;
  buckets_without_lifecycle : Z;
}.

(** The body of [for bucket in buckets]. *)
Definition audit_bucket (bucket : Bucket) (locals : AuditLocals)
  : M AuditLocals :=
  let bucket_name := Name bucket in
  print (LnAnalyzing bucket_name);;
  let! lifecycle := get_bucket_lifecycle bucket_name in
  let has_lifecycle := bool_decide (lifecycle <> None) in
  let! size_bytes := get_bucket_size bucket_name in
  let! object_count := get_bucket_object_count bucket_name in
  let size_gb := size_bytes / Num.GiB in
  let! current_cost := lift (calculate_current_cost size_bytes "standard") in
  print (LnSize size_gb);;
  print (LnObjects object_count);;
  print (LnLifecyclePolicy has_lifecycle);;
  print (LnCurrentCost current_cost);;
  let! (recommendation, savings, counted, saved) :=
    if negb has_lifecycle && Num.gtb size_gb 1 then
      let! (recommendation, savings) :=
        lift (recommend_lifecycle_policy bucket_name size_bytes object_count) in
      match recommendation with
      | Some r =>
          print (LnRecommendation (strategy r));;
          print (LnPotentialSavings savings (savings_percentage r));;
          ret (recommendation, savings,
               (buckets_without_lifecycle locals + 1)%Z,
               total_savings locals + savings)
      | None =>
          ret (recommendation, savings,
               buckets_without_lifecycle locals, total_savings locals)
      end
    else
      ret (None, 0, buckets_without_lifecycle locals, total_savings locals)
  in
  ret {| audit_results :=
           audit_results locals ++
           [ {| AuditRecord.bucket_name := bucket_name;
                AuditRecord.size_gb := Num.py_round size_gb 2;
                AuditRecord.object_count := object_count;
                AuditRecord.has_lifecycle := has_lifecycle;
                AuditRecord.current_cost := Num.py_round current_cost 2;
                AuditRecord.recommendation :=
                  match recommendation with
                  | Some r => strategy r
                  | None => "N/A"
                  end;
                AuditRecord.potential_savings := Num.py_round savings 2 |} ];
         total_size := total_size locals + size_bytes;
         total_cost := total_cost locals + current_cost;
         total_savings := saved;
         buckets_without_lifecycle := counted |}.

(** [audit_buckets] up to the end of its loop. *)
Definition audit_loop : M (list Bucket * AuditLocals) :=
  print LnAuditTitle;;
  let! now := datetime_now in
  print (LnGenerated now);;
  print LnSeparator;;
  let! buckets := get_all_buckets in
  print (LnFound (length buckets));;
  let! locals :=
    for_each buckets audit_bucket
      {| audit_results := [];
         total_size := 0;
         total_cost := 0;
         total_savings := 0;
         buckets_without_lifecycle := 0 |} in
  ret (buckets, locals).

Definition audit_buckets : M (list AuditRecord.t) :=
  let! (buckets, locals) := audit_loop in
  print LnSeparator;;
  print LnSummaryTitle;;
  print LnSeparator;;
  print (LnTotalBuckets (length buckets));;
  print (LnBucketsWithoutLifecycle (buckets_without_lifecycle locals));;
  print (LnTotalStorage (total_size locals / Num.TiB));;
  print (LnCurrentMonthlyCost (total_cost locals));;
  print (LnPotentialMonthlySavings (total_savings locals));;
  print (LnPotentialAnnualSavings (total_savings locals * Num.of_Z 12));;
  ret (audit_results locals).

End Methods.

(** [enumerate(l)] *)
Fixpoint enumerate_from {A} (i : nat) (l : list A) : list (nat * A) :=
  match l with
  | [] => []
  | x :: l' => (i, x) :: enumerate_from (S i) l'
  end.

Definition enumerate {A} (l : list A) : list (nat * A) := enumerate_from 0 l.

(** The rule built in the body of the loop of [generate_lifecycle_policy]. *)
Definition optimization_rule (i : nat) (transition : Transition) : Rule :=
  {| Id := String.append "OptimizationRule" (Str.of_nat (i + 1));
     Status := "Enabled";
     Transitions :=
       [ {| Days := days transition;
            StorageClass := storage_class transition |} ] |}.

Definition generate_lifecycle_policy (recommendation : Recommendation)
  : Policy :=
  let rules :=
    fold_left
      (fun rules '(i, transition) => rules ++ [optimization_rule i transition])
      (enumerate (transitions recommendation))
      [] in
  {| Rules := rules |}.

Definition apply_lifecycle_policy
    (bucket_name : string) (policy : Policy) (dry_run : bool) : M bool :=
  if dry_run then
    print (LnDryRun bucket_name);;
    print (LnPolicyJson policy);;
    ret true
  else
    try_except
      (s3_client.put_bucket_lifecycle_configuration bucket_name policy;;
       print (LnApplied bucket_name);;
       ret true)
      (fun e =>
         print (LnApplyFailed bucket_name e);;
         ret false).

(** [open(output_file, 'w')] followed by the header and the rows. *)
Definition write_csv (output_file : string) (content : CsvFile) : M unit :=
  fun w =>
    match open_for_write_fault w output_file with
    | Some e => (Raise e, w)
    | None =>
        (Ok tt,
         {| provider := provider w; api_calls := api_calls w;
            clock := clock w; config_files := config_files w;
            open_for_write_fault := open_for_write_fault w;
            files := <[output_file := content]> (files w);
            stdout := stdout w |})
    end.

Definition export_to_csv (results : list AuditRecord.t) (output_file : string)
  : M unit :=
  let fieldnames :=
    ["bucket_name"; "size_gb"; "object_count"; "has_lifecycle";
     "current_cost"; "recommendation"; "potential_savings"] in
  write_csv output_file {| fieldnames := fieldnames; rows := results |};;
  print (LnReportSaved output_file).

(* ===================================================================== *)
(** ** The command surface *)
(* ===================================================================== *)

Inductive Mode := mode_audit | mode_recommend | mode_apply.

(** The parsed command line. *)
Module args.
Record t := {
  mode : Mode;
  config : string;
  output : option string;
  bucket : option string;
  dry_run : bool;
}.
End args.

(** Truthiness of [args.output]: given and not empty. *)
Definition output_given (output : option string) : option string :=
  match output with
  | Some path => if Str.truthy path then Some path else None
  | None => None
  end.

Definition main (args : args.t) : M unit :=
  let! optimizer := init (args.config args) in
  match args.mode args with
  | mode_audit =>
      let! results := audit_buckets optimizer in
      match output_given (args.output args) with
      | Some path => export_to_csv results path
      | None => ret tt
      end
  | mode_recommend =>
      let! results := audit_buckets optimizer in
      match output_given (args.output args) with
      | Some path => export_to_csv results path
      | None => ret tt
      end
  | mode_apply =>
      print LnApplyNotImplemented
  end.

Definition with_mode (m : Mode) (a : args.t) : args.t :=
  {| args.mode := m;
     args.config := args.config a;
     args.output := args.output a;
     args.bucket := args.bucket a;
     args.dry_run := args.dry_run a |}.

(* ===================================================================== *)
(** ** Vocabulary of the statements *)
(* ===================================================================== *)

(** The cost per GB that a configuration supplies for a storage class. *)
Definition configured_cost (cfg : Config) (storage_class : string)
  : option Qc :=
  match cfg !! "analysis" with
  | Some analysis =>
      match analysis !! "storage_costs" with
      | Some storage_costs => storage_costs !! storage_class
      | None => None
      end
  | None => None
  end.

(** A bucket whose lifecycle read the provider answers with a response,
    not with an exception. *)
Definition lifecycle_readable (p : Provider) (bucket : Bucket) : Prop :=
  exists response,
    on_get_bucket_lifecycle_configuration p (Name bucket) = Ok response.


(** The metric request sent at a given time, and what the auditor learns
    about a bucket from a provider's answer to it: the size and the object
    count. *)
Definition metric_request (now : Z) (metric storage_type bucket_name : string)
  : MetricRequest :=
  {| Namespace := "AWS/S3";
     MetricName := metric;
     Dimensions := [("BucketName", bucket_name);
                    ("StorageType", storage_type)];
     StartTime := (now - 2 * 86400)%Z;
     EndTime := now;
     Period := 86400;
     Statistics := ["Average"] |}.

Definition first_average (r : result MetricResponse) : option Qc :=
  match r with
  | Ok response =>
      match Datapoints response with
      | d :: _ => Some (Average d)
      | [] => None
      end
  | Raise _ => None
  end.

Definition size_seen (p : Provider) (now : Z) (bucket_name : string) : Qc :=
  default 0
    (first_average
       (on_get_metric_statistics p
          (metric_request now "BucketSizeBytes" "StandardStorage"
             bucket_name))).

Definition count_seen (p : Provider) (now : Z) (bucket_name : string) : Z :=
  default 0%Z
    (Num.py_int <$>
       first_average
         (on_get_metric_statistics p
            (metric_request now "NumberOfObjects" "AllStorageTypes"
               bucket_name))).

(** ** Sample data: a configuration and a provider with six buckets *)

Definition sample_config : Config :=
  {[ "analysis" := {[ "storage_costs" :=
       {[ "standard" := Num.frac 23 1000;
          "glacier" := Num.frac 4 1000 ]} ]} ]}.

Definition sample_self : Optimizer := {| config := sample_config |}.

Definition GB (n : Z) : Qc := Num.of_Z n * Num.GiB.

Definition sample_provider : Provider :=
  {| on_list_buckets :=
       Ok [ {| Name := "prod-logs-archive" |};
            {| Name := "tiny-bucket" |};
            {| Name := "Media-Archive" |};
            {| Name := "exact-one-gb" |};
            {| Name := "managed-backup" |};
            {| Name := "broken" |} ];
     on_get_bucket_lifecycle_configuration := fun b =>
       if String.eqb b "managed-backup"
       then Ok {| resp_Rules := Some [ {| Id := "keep"; Status := "Enabled";
                                          Transitions := [] |} ] |}
       else if String.eqb b "broken" then Raise (ProviderError "AccessDenied")
       else Raise (ProviderError "NoSuchLifecycleConfiguration");
     on_get_metric_statistics := fun request =>
       match Dimensions request with
       | [(_, b); _] =>
           if String.eqb b "broken" then Raise (ProviderError "Throttling")
           else if String.eqb (MetricName request) "NumberOfObjects"
           then Ok {| Datapoints := [ {| Average := Num.frac 25 2 |} ] |}
           else if String.eqb b "prod-logs-archive"
           then Ok {| Datapoints := [ {| Average := GB 500 |} ] |}
           else if String.eqb b "tiny-bucket"
           then Ok {| Datapoints := [ {| Average := Num.GiB / Num.of_Z 2 |} ] |}
           else if String.eqb b "Media-Archive"
           then Ok {| Datapoints := [ {| Average := GB 40 |} ] |}
           else if String.eqb b "exact-one-gb"
           then Ok {| Datapoints := [ {| Average := Num.GiB |} ] |}
           else if String.eqb b "managed-backup"
           then Ok {| Datapoints := [ {| Average := GB 900 |} ] |}
           else Ok {| Datapoints := [] |}
       | _ => Raise (ProviderError "ValidationError")
       end;
     on_put_bucket_lifecycle_configuration := fun _ _ => None |}.

Definition sample_world : World :=
  {| provider := sample_provider;
     api_calls := [];
     clock := 1700000000;
     config_files := fun path =>
       if String.eqb path "config.yaml" then Ok sample_config
       else Raise (OSError "No such file or directory");
     open_for_write_fault := fun _ => None;
     files := ∅;
     stdout := [] |}.

Definition sample_args : args.t :=
  {| args.mode := mode_audit;
     args.config := "config.yaml";
     args.output := Some "report.csv";
     args.bucket := None;
     args.dry_run := false |}.

Definition sample_recommendation : Recommendation :=
  {| strategy := "Intelligent-Tiering + Glacier";
     transitions :=
       [ {| days := 30; storage_class := "INTELLIGENT_TIERING" |};
         {| days := 90; storage_class := "GLACIER_IR" |} ];
     estimated_cost := 2;
     savings_percentage := 83 |}.

(** The same buckets, each with a lifecycle configuration. *)
Definition managed_provider : Provider :=
  {| on_list_buckets := on_list_buckets sample_provider;
     on_get_bucket_lifecycle_configuration := fun _ =>
       Ok {| resp_Rules := Some [ {| Id := "keep"; Status := "Enabled";
                                     Transitions := [] |} ] |};
     on_get_metric_statistics := on_get_metric_statistics sample_provider;
     on_put_bucket_lifecycle_configuration := fun _ _ => None |}.

Definition managed_world : World :=
  {| provider := managed_provider;
     api_calls := [];
     clock := 1700000000;
     config_files := config_files sample_world;
     open_for_write_fault := fun _ => None;
     files := ∅;
     stdout := [] |}.

(** The local variables of [audit_buckets] before its loop. *)
Definition initial_locals : AuditLocals :=
  {| audit_results := [];
     total_size := 0;
     total_cost := 0;
     total_savings := 0;
     buckets_without_lifecycle := 0 |}.

(** The exception that leaves [get_bucket_lifecycle] when its first [except]
    clause is evaluated. *)
Definition missing_class : exn := AttributeError "NoSuchLifecycleConfiguration".

(** ** Programs that only observe the world *)

(** [w'] is [w] after some reads and prints: the provider, the clock and the
    files are the same; the log of calls and the terminal have grown. *)
Definition observes (w w' : World) : Prop :=
  provider w' = provider w
  /\ clock w' = clock w
  /\ config_files w' = config_files w
  /\ open_for_write_fault w' = open_for_write_fault w
  /\ files w' = files w
  /\ (exists calls, api_calls w' = api_calls w ++ calls)
  /\ (exists lines, stdout w' = stdout w ++ lines).

(** From every world whose provider satisfies [pre], [m] returns normally
    and only observes the world; its result and the requests it sends satisfy
    [post] of the provider and the clock. *)
Definition traced {A} (pre : Provider -> Prop) (m : M A)
    (post : Provider -> Z -> A -> list ApiCall -> Prop) : Prop :=
  forall w, pre (provider w) ->
    exists a w' calls,
      m w = (Ok a, w')
      /\ observes w w'
      /\ api_calls w' = api_calls w ++ calls
      /\ post (provider w) (clock w) a calls.

(** The three requests the audit sends for one bucket, in order. *)
Definition bucket_calls (now : Z) (bucket_name : string) : list ApiCall :=
  [ CallGetBucketLifecycleConfiguration bucket_name;
    CallGetMetricStatistics
      (metric_request now "BucketSizeBytes" "StandardStorage" bucket_name);
    CallGetMetricStatistics
      (metric_request now "NumberOfObjects" "AllStorageTypes" bucket_name) ].

(** A request without its time window: the operation and what it is about. *)
Inductive CallKind :=
| ListBuckets
| LifecycleRead (bucket_name : string)
| MetricRead (metric : string) (dimensions : list (string * string))
| LifecycleWrite (bucket_name : string).

Definition call_kind (c : ApiCall) : CallKind :=
  match c with
  | CallListBuckets => ListBuckets
  | CallGetBucketLifecycleConfiguration b => LifecycleRead b
  | CallGetMetricStatistics request =>
      MetricRead (MetricName request) (Dimensions request)
  | CallPutBucketLifecycleConfiguration b _ => LifecycleWrite b
  end.

(** The kinds of the three requests of one bucket. *)
Definition bucket_reads (bucket : Bucket) : list CallKind :=
  [ LifecycleRead (Name bucket);
    MetricRead "BucketSizeBytes"
      [("BucketName", Name bucket); ("StorageType", "StandardStorage")];
    MetricRead "NumberOfObjects"
      [("BucketName", Name bucket); ("StorageType", "AllStorageTypes")] ].

(** A request that changes what the provider holds. *)
Definition is_write (c : ApiCall) : bool :=
  match c with
  | CallPutBucketLifecycleConfiguration _ _ => true
  | _ => false
  end.

(** What the report says about a bucket whose lifecycle read was answered. *)
Definition reported (p : Provider) (now : Z) (bucket : Bucket)
    (record : AuditRecord.t) : Prop :=
  AuditRecord.bucket_name record = Name bucket
  /\ AuditRecord.has_lifecycle record = true
  /\ AuditRecord.object_count record = count_seen p now (Name bucket)
  /\ AuditRecord.recommendation record = "N/A"
  /\ AuditRecord.potential_savings record = 0.

(** What one turn of the audit loop does to the local variables for such a
    bucket, and the requests it sends. *)
Definition audited (rate : Qc) (p : Provider) (now : Z) (bucket : Bucket)
    (locals locals' : AuditLocals) (calls : list ApiCall) : Prop :=
  calls = bucket_calls now (Name bucket)
  /\ (exists record,
        audit_results locals' = audit_results locals ++ [record]
        /\ reported p now bucket record)
  /\ total_size locals' = total_size locals + size_seen p now (Name bucket)
  /\ total_cost locals'
     = total_cost locals + size_seen p now (Name bucket) / Num.GiB * rate
  /\ total_savings locals' = total_savings locals
  /\ buckets_without_lifecycle locals' = buckets_without_lifecycle locals.

(** The sizes read for some buckets and their costs at a rate, in order. *)
Definition sizes_seen (p : Provider) (now : Z) (buckets : list Bucket)
  : list Qc :=
  (fun bucket => size_seen p now (Name bucket)) <$> buckets.

Definition costs_seen (rate : Qc) (p : Provider) (now : Z)
    (buckets : list Bucket) : list Qc :=
  (fun bucket => size_seen p now (Name bucket) / Num.GiB * rate) <$> buckets.

(** [total = 0; for x in l: total += x] *)
Definition running_total (l : list Qc) : Qc := fold_left Qcplus l 0.

(** The local variables after the loop went through the buckets [done],
    starting from [initial_locals], and the requests sent for them. *)
Definition audit_invariant (rate : Qc) (p : Provider) (now : Z)
    (done : list Bucket) (locals : AuditLocals) (calls : list ApiCall)
  : Prop :=
  calls = concat ((fun bucket => bucket_calls now (Name bucket)) <$> done)
  /\ Forall2 (reported p now) done (audit_results locals)
  /\ total_size locals = running_total (sizes_seen p now done)
  /\ total_cost locals = running_total (costs_seen rate p now done)
  /\ total_savings locals = 0
  /\ buckets_without_lifecycle locals = 0%Z.

(** Two worlds with the same provider and the same clock. *)
Definition agree (w w' : World) : Prop :=
  provider w = provider w' /\ clock w = clock w'.

(** [m] leaves the provider and the clock as they are, and its outcome (the
    value returned or the exception raised) depends on them only: not on
    the files, the terminal or the requests sent before. *)
Definition read_only {A} (m : M A) : Prop :=
  (forall w, agree w (snd (m w)))
  /\ (forall w w', agree w w' -> fst (m w) = fst (m w')).

(* ===================================================================== *)
(** ** Strings: substring search and lower-casing *)
(* ===================================================================== *)

Module StrFacts.
Import Str.

Lemma append_nil (s : string) : String.append EmptyString s = s.
Proof. reflexivity. Qed.

Lemma append_cons (c : ascii) (s t : string) :
  String.append (String c s) t = String c (String.append s t).
Proof. reflexivity. Qed.

Lemma prefix_spec (p s : string) :
  String.prefix p s = true <-> exists post, s = String.append p post.
Proof.
  revert s. induction p as [|c p IH]; intros [|d s]; simpl.
  - split; [intros _; by exists EmptyString | done].
  - split; [intros _; by exists (String d s) | done].
  - split; [done | intros [post H]; discriminate].
  - destruct (Ascii.ascii_dec c d) as [->|Hne].
    + rewrite IH. split; intros [post H]; exists post;
        rewrite append_cons in *; congruence.
    + split; [done | intros [post H]; rewrite append_cons in H; congruence].
Qed.

Lemma str_in_spec (needle hay : string) :
  str_in needle hay = true
  <-> exists pre post,
        hay = String.append pre (String.append needle post).
Proof.
  induction hay as [|c hay IH]; cbn [str_in].
  - rewrite orb_false_r, prefix_spec. split.
    + intros [post H]. by exists EmptyString, post.
    + intros [pre [post H]]. destruct pre; [by exists post | discriminate].
  - rewrite orb_true_iff, prefix_spec, IH. split.
    + intros [[post H] | [pre [post H]]].
      * by exists EmptyString, post.
      * exists (String c pre), post. by rewrite append_cons, H.
    + intros [pre [post H]]. destruct pre as [|d pre].
      * left. by exists post.
      * right. exists pre, post. rewrite append_cons in H. congruence.
Qed.

Lemma lower_app (a b : string) :
  lower (String.append a b) = String.append (lower a) (lower b).
Proof.
  induction a as [|c a IH]; [done|].
  rewrite append_cons. simpl. by rewrite IH, append_cons.
Qed.

(** A split of the lower-cased string comes from a split of the string. *)
Lemma lower_split (s a b : string) :
  lower s = String.append a b ->
  exists s1 s2, s = String.append s1 s2 /\ lower s1 = a /\ lower s2 = b.
Proof.
  revert s. induction a as [|c a IH]; intros s H.
  - by exists EmptyString, s.
  - rewrite append_cons in H.
    destruct s as [|d s]; simpl in H; [discriminate|].
    injection H as Hc Hs. destruct (IH s Hs) as (s1 & s2 & -> & H1 & H2).
    exists (String d s1), s2. simpl. by rewrite Hc, H1.
Qed.

(** The test of the code, [pat in name.lower()], decides the
    case-insensitive substring match whenever [pat] is in lower case. *)
Lemma str_in_lower_spec (pat name : string) :
  lower pat = pat ->
  str_in pat (lower name) = true <-> ci_substring pat name.
Proof.
  intros Hpat. rewrite str_in_spec. unfold ci_substring. split.
  - intros (pre & post & H).
    apply lower_split in H as (s1 & s2 & -> & H1 & H2).
    apply lower_split in H2 as (s3 & s4 & -> & H3 & H4).
    exists s1, s3, s4. split; [done | congruence].
  - intros (pre & mid & post & -> & H).
    exists (lower pre), (lower post).
    by rewrite !lower_app, H, Hpat.
Qed.

End StrFacts.

(* ===================================================================== *)
(** ** Numbers: the 1 GB threshold *)
(* ===================================================================== *)

Module NumFacts.
Import Num.

Lemma GiB_pow2 : GiB = of_Z (2 ^ 30).
Proof. reflexivity. Qed.

Lemma GiB_pos : 0 < GiB.
Proof. reflexivity. Qed.

Lemma GiB_nonzero : GiB <> 0.
Proof. discriminate. Qed.

Lemma div_GiB_mul (x : Qc) : x / GiB * GiB = x.
Proof. field. apply GiB_nonzero. Qed.

Lemma size_gb_lt_1 (size_bytes : Qc) :
  size_bytes / GiB < 1 <-> size_bytes < GiB.
Proof.
  rewrite (Qcmult_lt_mono_pos_r _ _ GiB GiB_pos).
  by rewrite div_GiB_mul, Qcmult_1_l.
Qed.

Lemma size_gb_gt_1 (size_bytes : Qc) :
  1 < size_bytes / GiB <-> GiB < size_bytes.
Proof.
  rewrite (Qcmult_lt_mono_pos_r _ _ GiB GiB_pos).
  by rewrite div_GiB_mul, Qcmult_1_l.
Qed.

Lemma ltb_size_gb_small (size_bytes : Qc) :
  size_bytes < GiB -> ltb (size_bytes / GiB) 1 = true.
Proof. intros H. apply bool_decide_eq_true. by apply size_gb_lt_1. Qed.

Lemma ltb_size_gb_large (size_bytes : Qc) :
  GiB <= size_bytes -> ltb (size_bytes / GiB) 1 = false.
Proof.
  intros H. apply bool_decide_eq_false. rewrite size_gb_lt_1.
  by apply Qcle_not_lt.
Qed.

Lemma gtb_size_gb (size_bytes : Qc) :
  gtb (size_bytes / GiB) 1 = true <-> GiB < size_bytes.
Proof.
  unfold gtb. rewrite bool_decide_eq_true. apply size_gb_gt_1.
Qed.

Lemma round_half_even_0 : round_half_even 0 = 0%Z.
Proof. reflexivity. Qed.

Lemma py_round_0 (ndigits : nat) : py_round 0 ndigits = 0.
Proof.
  unfold py_round. rewrite Qcmult_0_l, round_half_even_0.
  apply Qcmult_0_l.
Qed.

End NumFacts.

(* ===================================================================== *)
(** ** Cost estimate and recommendation *)
(* ===================================================================== *)

Section CostModel.

Variable self : Optimizer.

Lemma calculate_current_cost_configured
    (size_bytes : Qc) (storage_class : string) (rate : Qc) :
  configured_cost (config self) storage_class = Some rate ->
  calculate_current_cost self size_bytes storage_class
  = Ok (size_bytes / Num.GiB * rate).
Proof.
  unfold configured_cost, calculate_current_cost, getitem. intros H.
  destruct (config self !! "analysis") as [analysis|]; [|done].
  cbv [result_bind].
  destruct (analysis !! "storage_costs") as [storage_costs|]; [|done].
  by rewrite H.
Qed.

Lemma calculate_current_cost_unconfigured
    (size_bytes : Qc) (storage_class : string) :
  configured_cost (config self) storage_class = None ->
  exists key, calculate_current_cost self size_bytes storage_class
              = Raise (KeyError key).
Proof.
  unfold configured_cost, calculate_current_cost, getitem. intros H.
  destruct (config self !! "analysis") as [analysis|]; [|by eexists].
  cbv [result_bind].
  destruct (analysis !! "storage_costs") as [storage_costs|]; [|by eexists].
  rewrite H. by eexists.
Qed.

(** From the threshold on, a configuration without the standard rate makes
    the lookup raise. *)
Lemma recommend_unconfigured
    (bucket_name : string) (size_bytes : Qc) (object_count : Z) :
  configured_cost (config self) "standard" = None ->
  Num.GiB <= size_bytes ->
  exists key,
    recommend_lifecycle_policy self bucket_name size_bytes object_count
    = Raise (KeyError key).
Proof.
  intros Hcfg Hsize. unfold recommend_lifecycle_policy.
  rewrite NumFacts.ltb_size_gb_large by done.
  destruct (calculate_current_cost_unconfigured size_bytes "standard" Hcfg)
    as [key ->].
  by exists key.
Qed.

(** Below the threshold nothing else is looked at. *)
Lemma recommend_small
    (bucket_name : string) (size_bytes : Qc) (object_count : Z) :
  size_bytes < Num.GiB ->
  recommend_lifecycle_policy self bucket_name size_bytes object_count
  = Ok (None, 0).
Proof.
  intros H. unfold recommend_lifecycle_policy.
  by rewrite NumFacts.ltb_size_gb_small.
Qed.

(** From the threshold on, the result is one of the three dictionaries,
    chosen by the tests on the lower-cased name. *)
Lemma recommend_large
    (rate : Qc) (bucket_name : string) (size_bytes : Qc) (object_count : Z) :
  configured_cost (config self) "standard" = Some rate ->
  Num.GiB <= size_bytes ->
  let size_gb := size_bytes / Num.GiB in
  let recommendation :=
    if Str.str_in "log" (Str.lower bucket_name)
       || Str.str_in "backup" (Str.lower bucket_name)
    then
      {| strategy := "Intelligent-Tiering + Glacier";
         transitions :=
           [ {| days := 30; storage_class := "INTELLIGENT_TIERING" |};
             {| days := 90; storage_class := "GLACIER_IR" |} ];
         estimated_cost := size_gb * Num.frac 4 1000;
         savings_percentage := 83 |}
    else if Str.str_in "archive" (Str.lower bucket_name)
    then
      {| strategy := "Deep Archive";
         transitions := [ {| days := 0; storage_class := "DEEP_ARCHIVE" |} ];
         estimated_cost := size_gb * Num.frac 99 100000;
         savings_percentage := 96 |}
    else
      {| strategy := "Intelligent-Tiering";
         transitions :=
           [ {| days := 30; storage_class := "INTELLIGENT_TIERING" |} ];
         estimated_cost := size_gb * Num.frac 25 10000;
         savings_percentage := 89 |} in
  recommend_lifecycle_policy self bucket_name size_bytes object_count
  = Ok (Some recommendation,
        size_gb * rate - estimated_cost recommendation).
Proof.
  intros Hcfg Hsize. unfold recommend_lifecycle_policy.
  rewrite NumFacts.ltb_size_gb_large by done.
  by rewrite (calculate_current_cost_configured _ _ _ Hcfg).
Qed.

(** The name tests of the code against the case-insensitive substring
    relation. *)
Lemma name_tests (bucket_name : string) :
  (Str.str_in "log" (Str.lower bucket_name)
   || Str.str_in "backup" (Str.lower bucket_name) = true
   <-> Str.ci_substring "log" bucket_name
       \/ Str.ci_substring "backup" bucket_name)
  /\ (Str.str_in "archive" (Str.lower bucket_name) = true
      <-> Str.ci_substring "archive" bucket_name).
Proof.
  rewrite orb_true_iff.
  by rewrite !StrFacts.str_in_lower_spec.
Qed.

(** C1. For every bucket name and every size of at least 1 GB (2^30
    bytes), under a configuration that supplies the standard rate,
    [recommend_lifecycle_policy] returns a recommendation chosen by
    case-insensitive substring match on the name, in this order: a name
    containing "log" or "backup" gets the aggressive-tiering strategy with
    transitions [(30, INTELLIGENT_TIERING); (90, GLACIER_IR)] and estimated
    cost 0.004 per GB; otherwise a name containing "archive" gets the
    deep-archive strategy with the single transition (0, DEEP_ARCHIVE) and
    0.00099 per GB; otherwise the generic strategy with the single
    transition (30, INTELLIGENT_TIERING) and 0.0025 per GB. *)
Theorem recommend_classifies_by_name
    (rate : Qc) (bucket_name : string) (size_bytes : Qc) (object_count : Z) :
  configured_cost (config self) "standard" = Some rate ->
  Num.of_Z (2 ^ 30) <= size_bytes ->
  let size_gb := size_bytes / Num.of_Z (2 ^ 30) in
  let log_or_backup :=
    Str.ci_substring "log" bucket_name
    \/ Str.ci_substring "backup" bucket_name in
  let archive := Str.ci_substring "archive" bucket_name in
  exists recommendation savings,
    recommend_lifecycle_policy self bucket_name size_bytes object_count
    = Ok (Some recommendation, savings)
    /\ (log_or_backup ->
        recommendation
        = {| strategy := "Intelligent-Tiering + Glacier";
             transitions :=
               [ {| days := 30; storage_class := "INTELLIGENT_TIERING" |};
                 {| days := 90; storage_class := "GLACIER_IR" |} ];
             estimated_cost := size_gb * Num.frac 4 1000;
             savings_percentage := 83 |})
    /\ (~ log_or_backup -> archive ->
        recommendation
        = {| strategy := "Deep Archive";
             transitions :=
               [ {| days := 0; storage_class := "DEEP_ARCHIVE" |} ];
             estimated_cost := size_gb * Num.frac 99 100000;
             savings_percentage := 96 |})
    /\ (~ log_or_backup -> ~ archive ->
        recommendation
        = {| strategy := "Intelligent-Tiering";
             transitions :=
               [ {| days := 30; storage_class := "INTELLIGENT_TIERING" |} ];
             estimated_cost := size_gb * Num.frac 25 10000;
             savings_percentage := 89 |}).
Proof.
  rewrite <- NumFacts.GiB_pow2. intros Hcfg Hsize size_gb log_or_backup archive.
  pose proof (recommend_large rate bucket_name size_bytes object_count
                Hcfg Hsize) as Hrec.
  destruct (name_tests bucket_name) as [Hlog Harchive].
  fold log_or_backup in Hlog. fold archive in Harchive.
  cbv zeta in Hrec. fold size_gb in Hrec.
  destruct (Str.str_in "log" (Str.lower bucket_name)
            || Str.str_in "backup" (Str.lower bucket_name)) eqn:E1.
  - eexists _, _. split; [exact Hrec|].
    assert (log_or_backup) by by apply Hlog.
    by repeat split.
  - assert (~ log_or_backup) by (intros H; apply Hlog in H; discriminate).
    destruct (Str.str_in "archive" (Str.lower bucket_name)) eqn:E2.
    + eexists _, _. split; [exact Hrec|].
      assert archive by by apply Harchive.
      by repeat split.
    + eexists _, _. split; [exact Hrec|].
      assert (~ archive) by (intros H'; apply Harchive in H'; discriminate).
      by repeat split.
Qed.

(** C2. For every bucket name and every size strictly below 1 GB (2^30
    bytes), [recommend_lifecycle_policy] returns no recommendation and a
    savings value of zero; neither the name nor the configuration is
    consulted. *)
Theorem recommend_below_threshold
    (bucket_name : string) (size_bytes : Qc) (object_count : Z) :
  size_bytes < Num.of_Z (2 ^ 30) ->
  recommend_lifecycle_policy self bucket_name size_bytes object_count
  = Ok (None, 0).
Proof. rewrite <- NumFacts.GiB_pow2. apply recommend_small. Qed.

(** Unit cost and label of the chosen dictionary, by the tests of the
    code. *)
Lemma recommend_large_unit_cost
    (rate : Qc) (bucket_name : string) (size_bytes : Qc) (object_count : Z) :
  configured_cost (config self) "standard" = Some rate ->
  Num.GiB <= size_bytes ->
  exists recommendation unit_cost,
    recommend_lifecycle_policy self bucket_name size_bytes object_count
    = Ok (Some recommendation,
          size_bytes / Num.GiB * rate - size_bytes / Num.GiB * unit_cost)
    /\ estimated_cost recommendation = size_bytes / Num.GiB * unit_cost
    /\ (unit_cost, savings_percentage recommendation)
       = (if Str.str_in "log" (Str.lower bucket_name)
             || Str.str_in "backup" (Str.lower bucket_name)
          then (Num.frac 4 1000, 83%Z)
          else if Str.str_in "archive" (Str.lower bucket_name)
          then (Num.frac 99 100000, 96%Z)
          else (Num.frac 25 10000, 89%Z)).
Proof.
  intros Hcfg Hsize.
  pose proof (recommend_large rate bucket_name size_bytes object_count
                Hcfg Hsize) as Hrec.
  cbv zeta in Hrec.
  destruct (Str.str_in "log" (Str.lower bucket_name)
            || Str.str_in "backup" (Str.lower bucket_name));
    [|destruct (Str.str_in "archive" (Str.lower bucket_name))];
    eexists _, _; (split; [exact Hrec | by split]).
Qed.

(** C5. [calculate_current_cost] computes size in bytes divided by 2^30,
    times the configured cost per GB of the storage class; doubling the
    size doubles the cost. *)
Theorem current_cost_linear
    (size_bytes rate : Qc) (storage_class : string) :
  configured_cost (config self) storage_class = Some rate ->
  exists cost,
    calculate_current_cost self size_bytes storage_class = Ok cost
    /\ cost = size_bytes / Num.of_Z (2 ^ 30) * rate
    /\ calculate_current_cost self (Num.of_Z 2 * size_bytes) storage_class
       = Ok (Num.of_Z 2 * cost).
Proof.
  rewrite <- NumFacts.GiB_pow2. intros Hcfg.
  exists (size_bytes / Num.GiB * rate).
  rewrite !(calculate_current_cost_configured _ _ _ Hcfg).
  repeat split. f_equal. field. apply NumFacts.GiB_nonzero.
Qed.

End CostModel.

(** C4. For every qualifying bucket (size at least 1 GB, standard rate
    configured) the savings returned by [recommend_lifecycle_policy] is the
    current cost, size in GB times the standard rate, minus size in GB
    times the unit cost of the matched strategy (0.004, 0.00099 or 0.0025);
    the recorded savings percentage is the constant 83, 96 or 89 that goes
    with the name match, and it is the same whatever the size and the
    configured rate, hence not derived from the computed savings. *)
Theorem savings_formula_and_fixed_label
    (self : Optimizer) (rate : Qc) (bucket_name : string) (size_bytes : Qc) (object_count : Z) :
  configured_cost (config self) "standard" = Some rate ->
  Num.of_Z (2 ^ 30) <= size_bytes ->
  let size_gb := size_bytes / Num.of_Z (2 ^ 30) in
  let log_or_backup :=
    Str.ci_substring "log" bucket_name
    \/ Str.ci_substring "backup" bucket_name in
  let archive := Str.ci_substring "archive" bucket_name in
  exists recommendation savings current_cost unit_cost,
    recommend_lifecycle_policy self bucket_name size_bytes object_count
    = Ok (Some recommendation, savings)
    /\ calculate_current_cost self size_bytes "standard" = Ok current_cost
    /\ current_cost = size_gb * rate
    /\ estimated_cost recommendation = size_gb * unit_cost
    /\ savings = current_cost - size_gb * unit_cost
    /\ (log_or_backup ->
        unit_cost = Num.frac 4 1000
        /\ savings_percentage recommendation = 83%Z)
    /\ (~ log_or_backup -> archive ->
        unit_cost = Num.frac 99 100000
        /\ savings_percentage recommendation = 96%Z)
    /\ (~ log_or_backup -> ~ archive ->
        unit_cost = Num.frac 25 10000
        /\ savings_percentage recommendation = 89%Z)
    /\ (forall (other : Optimizer) (rate' size_bytes' : Qc)
               (object_count' : Z),
          configured_cost (config other) "standard" = Some rate' ->
          Num.of_Z (2 ^ 30) <= size_bytes' ->
          exists recommendation' savings',
            recommend_lifecycle_policy other bucket_name size_bytes'
              object_count'
            = Ok (Some recommendation', savings')
            /\ savings_percentage recommendation'
               = savings_percentage recommendation).
Proof.
  rewrite <- NumFacts.GiB_pow2.
  intros Hcfg Hsize size_gb log_or_backup archive.
  destruct (recommend_large_unit_cost self rate bucket_name size_bytes
              object_count Hcfg Hsize)
    as (recommendation & unit_cost & Hrec & Hest & Hunit).
  destruct (name_tests bucket_name) as [Hlog Harchive].
  fold log_or_backup in Hlog. fold archive in Harchive.
  exists recommendation, (size_gb * rate - size_gb * unit_cost),
    (size_gb * rate), unit_cost.
  split; [exact Hrec|].
  split; [by apply calculate_current_cost_configured|].
  do 3 (split; [done|]).
  assert (Hlabel :
    (log_or_backup ->
     unit_cost = Num.frac 4 1000
     /\ savings_percentage recommendation = 83%Z)
    /\ (~ log_or_backup -> archive ->
        unit_cost = Num.frac 99 100000
        /\ savings_percentage recommendation = 96%Z)
    /\ (~ log_or_backup -> ~ archive ->
        unit_cost = Num.frac 25 10000
        /\ savings_percentage recommendation = 89%Z)).
  { destruct (Str.str_in "log" (Str.lower bucket_name)
              || Str.str_in "backup" (Str.lower bucket_name)).
    - assert log_or_backup by by apply Hlog.
      injection Hunit as -> ->. by repeat split.
    - assert (~ log_or_backup) by (intros H; apply Hlog in H; discriminate).
      destruct (Str.str_in "archive" (Str.lower bucket_name)).
      + assert archive by by apply Harchive.
        injection Hunit as -> ->. by repeat split.
      + assert (~ archive)
          by (intros H'; apply Harchive in H'; discriminate).
        injection Hunit as -> ->. by repeat split. }
  destruct Hlabel as (H1 & H2 & H3). do 3 (split; [done|]).
  intros other rate' size_bytes' object_count' Hcfg' Hsize'.
  destruct (recommend_large_unit_cost other rate' bucket_name size_bytes'
              object_count' Hcfg' Hsize')
    as (recommendation' & unit_cost' & Hrec' & _ & Hunit').
  eexists _, _. split; [exact Hrec'|].
  congruence.
Qed.


(* ===================================================================== *)
(** ** Running the program step by step *)
(* ===================================================================== *)

Lemma stdout_add_line (l : Line) (w : World) :
  stdout (add_line l w) = stdout w ++ [l].
Proof. reflexivity. Qed.

Lemma bind_run {A B} (m : M A) (k : A -> M B) (w : World) (a : A)
    (w' : World) :
  m w = (Ok a, w') -> bind m k w = k a w'.
Proof. intros H. unfold bind. by rewrite H. Qed.

Lemma bind_raise {A B} (m : M A) (k : A -> M B) (w : World) (e : exn)
    (w' : World) :
  m w = (Raise e, w') -> bind m k w = (Raise e, w').
Proof. intros H. unfold bind. by rewrite H. Qed.

Lemma bind_print {B} (l : Line) (k : unit -> M B) (w : World) :
  bind (print l) k w = k tt (add_line l w).
Proof. reflexivity. Qed.

Lemma bind_now {B} (k : Z -> M B) (w : World) :
  bind datetime_now k w = k (clock w) w.
Proof. reflexivity. Qed.

Lemma bind_lift {A B} (r : result A) (k : A -> M B) (w : World) :
  bind (lift r) k w
  = match r with
    | Ok a => k a w
    | Raise e => (Raise e, w)
    end.
Proof. by destruct r. Qed.

(** A loop over [xs ++ ys] is the loop over [xs] followed by the loop over
    [ys]. *)
Lemma for_each_app {X S} (body : X -> S -> M S) (xs ys : list X) (s : S)
    (w : World) :
  for_each (xs ++ ys) body s w
  = bind (for_each xs body s) (for_each ys body) w.
Proof.
  revert s w. induction xs as [|x xs IH]; intros s w; [reflexivity|].
  cbn [app for_each]. unfold bind.
  destruct (body x s w) as [[s'|e] w1]; [exact (IH s' w1) | reflexivity].
Qed.

(* ===================================================================== *)
(** ** A program logic for the observing part of the program *)
(* ===================================================================== *)

Lemma observes_refl (w : World) : observes w w.
Proof.
  repeat split; exists []; by rewrite app_nil_r.
Qed.

Lemma observes_trans (w1 w2 w3 : World) :
  observes w1 w2 -> observes w2 w3 -> observes w1 w3.
Proof.
  intros (Hp & Hc & Hf & Ho & Hfs & [cs Hcs] & [ls Hls])
         (Hp' & Hc' & Hf' & Ho' & Hfs' & [cs' Hcs'] & [ls' Hls']).
  repeat split; try congruence.
  - exists (cs ++ cs'). by rewrite Hcs', Hcs, app_assoc.
  - exists (ls ++ ls'). by rewrite Hls', Hls, app_assoc.
Qed.

Lemma observes_add_line (l : Line) (w : World) : observes w (add_line l w).
Proof.
  repeat split; simpl; [exists [] | exists [l]]; by rewrite ?app_nil_r.
Qed.

Section Traces.

Variable pre : Provider -> Prop.
Context {A B : Type}.

Lemma traced_ret (a : A) (post : Provider -> Z -> A -> list ApiCall -> Prop) :
  (forall p now, post p now a []) -> traced pre (ret a) post.
Proof.
  intros H w _. exists a, w, []. split; [done|].
  split; [apply observes_refl|]. by rewrite app_nil_r.
Qed.

Lemma traced_weaken (m : M A)
    (post post' : Provider -> Z -> A -> list ApiCall -> Prop) :
  traced pre m post ->
  (forall p now a calls, post p now a calls -> post' p now a calls) ->
  traced pre m post'.
Proof.
  intros Hm Himp w Hpre.
  destruct (Hm w Hpre) as (a & w' & calls & Hrun & Hobs & Hcalls & Hpost).
  exists a, w', calls. auto.
Qed.

(** Sequencing.  What is known of the value of [m] whatever the provider
    ([good]) is available to the continuation as a hypothesis. *)
Lemma traced_bind_good (m : M A) (k : A -> M B) (good : A -> Prop)
    (mid : Provider -> Z -> A -> list ApiCall -> Prop)
    (post : Provider -> Z -> B -> list ApiCall -> Prop) :
  traced pre m (fun p now a calls => good a /\ mid p now a calls) ->
  (forall a, good a ->
     traced pre (k a)
       (fun p now b calls2 =>
          forall calls1, mid p now a calls1 -> post p now b (calls1 ++ calls2))) ->
  traced pre (bind m k) post.
Proof.
  intros Hm Hk w Hpre.
  destruct (Hm w Hpre)
    as (a & w1 & calls1 & Hrun & Hobs & Hcalls & Hgood & Hmid).
  assert (Hpre1 : pre (provider w1)) by (destruct Hobs as [-> _]; done).
  destruct (Hk a Hgood w1 Hpre1)
    as (b & w2 & calls2 & Hrun2 & Hobs2 & Hcalls2 & Hpost).
  exists b, w2, (calls1 ++ calls2). rewrite (bind_run _ _ _ _ _ Hrun).
  split; [done|]. split; [by eapply observes_trans|].
  split; [by rewrite Hcalls2, Hcalls, app_assoc|].
  destruct Hobs as (Hp & Hc & _). rewrite Hp, Hc in Hpost. auto.
Qed.

Lemma traced_bind (m : M A) (k : A -> M B)
    (mid : Provider -> Z -> A -> list ApiCall -> Prop)
    (post : Provider -> Z -> B -> list ApiCall -> Prop) :
  traced pre m mid ->
  (forall a,
     traced pre (k a)
       (fun p now b calls2 =>
          forall calls1, mid p now a calls1 -> post p now b (calls1 ++ calls2))) ->
  traced pre (bind m k) post.
Proof.
  intros Hm Hk. apply (traced_bind_good m k (fun _ => True) mid).
  - eapply traced_weaken; [exact Hm|]. by intros p now a calls H.
  - intros a _. apply Hk.
Qed.

Lemma traced_bind_ret (a : A) (k : A -> M B)
    (post : Provider -> Z -> B -> list ApiCall -> Prop) :
  traced pre (k a) post -> traced pre (bind (ret a) k) post.
Proof. intros H w. apply H. Qed.

Lemma traced_bind_lift (r : result A) (a : A) (k : A -> M B)
    (post : Provider -> Z -> B -> list ApiCall -> Prop) :
  r = Ok a -> traced pre (k a) post -> traced pre (bind (lift r) k) post.
Proof. intros -> H w. apply H. Qed.

Lemma traced_bind_print (l : Line) (k : M B)
    (post : Provider -> Z -> B -> list ApiCall -> Prop) :
  traced pre k post -> traced pre (bind (print l) (fun _ => k)) post.
Proof.
  intros H w Hpre.
  destruct (H (add_line l w) Hpre)
    as (b & w' & calls & Hrun & Hobs & Hcalls & Hpost).
  exists b, w', calls. split; [exact Hrun|].
  split; [|split; [exact Hcalls | exact Hpost]].
  eapply observes_trans; [apply observes_add_line | exact Hobs].
Qed.

End Traces.

(** A loop whose body keeps an invariant keeps it over the whole list.  The
    body is looked at for the elements of the list only. *)
Lemma traced_for_each {X S} (pre : Provider -> Prop) (body : X -> S -> M S)
    (inv : Provider -> Z -> list X -> S -> list ApiCall -> Prop)
    (xs : list X) :
  (forall x s, x ∈ xs ->
     traced pre (body x s)
       (fun p now s' calls =>
          forall done calls0, inv p now done s calls0 ->
                              inv p now (done ++ [x]) s' (calls0 ++ calls))) ->
  forall s,
    traced pre (for_each xs body s)
      (fun p now s' calls =>
         forall done calls0, inv p now done s calls0 ->
                             inv p now (done ++ xs) s' (calls0 ++ calls)).
Proof.
  induction xs as [|x xs IH]; intros Hbody s; simpl.
  - apply traced_ret. intros p now done calls0 H. by rewrite !app_nil_r.
  - eapply traced_bind; [apply Hbody; constructor|].
    intros s'. eapply traced_weaken.
    { apply IH. intros y t Hy. apply Hbody. by constructor. }
    intros p now s'' calls2 Hrest calls1 Hstep done calls0 Hinv.
    rewrite (assoc_L (++) done [x] xs : done ++ x :: xs = (done ++ [x]) ++ xs).
    rewrite app_assoc. apply Hrest, Hstep, Hinv.
Qed.

(* ===================================================================== *)
(** ** The three reads of a bucket *)
(* ===================================================================== *)

(** The client defines no class of the name the first [except] clause of
    [get_bucket_lifecycle] asks for. *)
Lemma no_such_class :
  s3_client.exceptions "NoSuchLifecycleConfiguration" = Raise missing_class.
Proof. reflexivity. Qed.

(** The world after one more request. *)
Lemma contacted (c : ApiCall) (w : World) :
  let w' := snd (contact c (provider w) w) in
  observes w w' /\ api_calls w' = api_calls w ++ [c] /\ stdout w' = stdout w.
Proof.
  cbn. split; [|done].
  repeat split; simpl; [exists [c] | exists []]; by rewrite ?app_nil_r.
Qed.

(** Hence the lifecycle read returns the rules when the provider answers
    and raises [AttributeError] when the provider raises, whatever the
    exception of the provider is: neither [except] clause returns [None]. *)
Lemma get_bucket_lifecycle_run (bucket_name : string) (w : World) :
  get_bucket_lifecycle bucket_name w
  = (match on_get_bucket_lifecycle_configuration (provider w) bucket_name with
     | Ok response => Ok (Some (default [] (resp_Rules response)))
     | Raise _ => Raise missing_class
     end,
     snd (contact (CallGetBucketLifecycleConfiguration bucket_name)
            (provider w) w)).
Proof.
  unfold get_bucket_lifecycle. rewrite no_such_class.
  cbv [try_except_class bind s3_client.get_bucket_lifecycle_configuration
       the_provider contact lift ret snd].
  by destruct (on_get_bucket_lifecycle_configuration (provider w) bucket_name).
Qed.

Lemma get_bucket_lifecycle_escapes (bucket_name : string) (w : World)
    (e : exn) :
  on_get_bucket_lifecycle_configuration (provider w) bucket_name = Raise e ->
  exists w',
    get_bucket_lifecycle bucket_name w = (Raise missing_class, w')
    /\ observes w w'
    /\ api_calls w'
       = api_calls w ++ [CallGetBucketLifecycleConfiguration bucket_name]
    /\ stdout w' = stdout w.
Proof.
  intros Hanswer. eexists. rewrite get_bucket_lifecycle_run, Hanswer.
  split; [reflexivity|]. apply contacted.
Qed.

Lemma get_bucket_lifecycle_traced pre (bucket_name : string) :
  (forall p, pre p ->
     exists response,
       on_get_bucket_lifecycle_configuration p bucket_name = Ok response) ->
  traced pre (get_bucket_lifecycle bucket_name)
    (fun p now lifecycle calls =>
       lifecycle <> None
       /\ calls = [CallGetBucketLifecycleConfiguration bucket_name]).
Proof.
  intros Hread w Hpre. destruct (Hread _ Hpre) as [response Hanswer].
  eexists _, _, _. rewrite get_bucket_lifecycle_run, Hanswer.
  split; [reflexivity|].
  destruct (contacted (CallGetBucketLifecycleConfiguration bucket_name) w)
    as (Hobs & Hcalls & _).
  split; [exact Hobs|]. split; [exact Hcalls|]. by split.
Qed.

(** The two metric reads never raise: whatever the provider answers, they
    return what [size_seen] and [count_seen] describe, and send one
    request. *)

Lemma get_bucket_size_traced pre (bucket_name : string) :
  traced pre (get_bucket_size bucket_name)
    (fun p now size_bytes calls =>
       size_bytes = size_seen p now bucket_name
       /\ calls = [CallGetMetricStatistics
                     (metric_request now "BucketSizeBytes" "StandardStorage"
                        bucket_name)]).
Proof.
  intros w _.
  cbv [get_bucket_size try_except bind datetime_now
       cloudwatch.get_metric_statistics the_provider contact lift size_seen
       first_average metric_request ret timedelta_days].
  destruct (on_get_metric_statistics (provider w) _) as [[[|d ds]]|e];
    eexists _, _, _; (split; [reflexivity|]);
    (split; [|split; [reflexivity | split; reflexivity]]);
    repeat split; simpl; eexists; try reflexivity; by rewrite app_nil_r.
Qed.

Lemma get_bucket_object_count_traced pre (bucket_name : string) :
  traced pre (get_bucket_object_count bucket_name)
    (fun p now object_count calls =>
       object_count = count_seen p now bucket_name
       /\ calls = [CallGetMetricStatistics
                     (metric_request now "NumberOfObjects" "AllStorageTypes"
                        bucket_name)]).
Proof.
  intros w _.
  cbv [get_bucket_object_count try_except bind datetime_now
       cloudwatch.get_metric_statistics the_provider contact lift count_seen
       first_average metric_request ret timedelta_days].
  destruct (on_get_metric_statistics (provider w) _) as [[[|d ds]]|e];
    eexists _, _, _; (split; [reflexivity|]);
    (split; [|split; [reflexivity | split; reflexivity]]);
    repeat split; simpl; eexists; try reflexivity; by rewrite app_nil_r.
Qed.

(** The three reads of one bucket, run one after the other. *)
Lemma bucket_reads_run (bucket_name : string) (w : World)
    (response : LifecycleResponse) :
  on_get_bucket_lifecycle_configuration (provider w) bucket_name
  = Ok response ->
  exists w1 w2 w3,
    get_bucket_lifecycle bucket_name w
    = (Ok (Some (default [] (resp_Rules response))), w1)
    /\ get_bucket_size bucket_name w1
       = (Ok (size_seen (provider w) (clock w) bucket_name), w2)
    /\ get_bucket_object_count bucket_name w2
       = (Ok (count_seen (provider w) (clock w) bucket_name), w3)
    /\ observes w w3
    /\ api_calls w3 = api_calls w ++ bucket_calls (clock w) bucket_name.
Proof.
  intros Hanswer.
  pose proof (get_bucket_lifecycle_run bucket_name w) as Hrun1.
  rewrite Hanswer in Hrun1.
  destruct (contacted (CallGetBucketLifecycleConfiguration bucket_name) w)
    as (Hobs1 & Hc1 & _).
  set (w1 := snd (contact (CallGetBucketLifecycleConfiguration bucket_name)
                    (provider w) w)) in *.
  destruct (get_bucket_size_traced (fun _ => True) bucket_name w1 I)
    as (size_bytes & w2 & c2 & Hrun2 & Hobs2 & Hc2 & -> & ->).
  destruct (get_bucket_object_count_traced (fun _ => True) bucket_name w2 I)
    as (object_count & w3 & c3 & Hrun3 & Hobs3 & Hc3 & -> & ->).
  pose proof (observes_trans _ _ _ Hobs1 Hobs2) as Hobs12.
  pose proof (proj1 Hobs1) as Hp1.
  pose proof (proj1 (proj2 Hobs1)) as Hk1.
  pose proof (proj1 Hobs12) as Hp2.
  pose proof (proj1 (proj2 Hobs12)) as Hk2.
  rewrite Hp1, Hk1 in Hrun2. rewrite Hk1 in Hc2.
  rewrite Hp2, Hk2 in Hrun3. rewrite Hk2 in Hc3.
  exists w1, w2, w3. do 3 (split; [done|]).
  split; [by eapply observes_trans|].
  rewrite Hc3, Hc2, Hc1. unfold bucket_calls. by rewrite <- !app_assoc.
Qed.

(* ===================================================================== *)
(** ** The audit loop *)
(* ===================================================================== *)

Lemma running_total_snoc (l : list Qc) (x : Qc) :
  running_total (l ++ [x]) = running_total l + x.
Proof. unfold running_total. by rewrite fold_left_app. Qed.

Lemma recommend_large_strategy
    (self : Optimizer) (rate : Qc) (bucket_name : string) (size_bytes : Qc)
    (object_count : Z) :
  configured_cost (config self) "standard" = Some rate ->
  Num.GiB <= size_bytes ->
  exists recommendation savings,
    recommend_lifecycle_policy self bucket_name size_bytes object_count
    = Ok (Some recommendation, savings)
    /\ strategy recommendation <> "N/A".
Proof.
  intros Hcfg Hsize.
  pose proof (recommend_large self rate bucket_name size_bytes object_count
                Hcfg Hsize) as Hrec.
  cbv zeta in Hrec. eexists _, _. split; [exact Hrec|].
  destruct (_ || _); [done|]. by destruct (Str.str_in _ _).
Qed.

(** A turn of the loop for a bucket whose lifecycle read raises: the
    exception of [get_bucket_lifecycle] ends the turn right after the
    "Analyzing" line, before the metrics are read. *)
Lemma audit_bucket_escapes (self : Optimizer) (bucket : Bucket)
    (locals : AuditLocals) (w : World) (e : exn) :
  on_get_bucket_lifecycle_configuration (provider w) (Name bucket) = Raise e ->
  exists w',
    audit_bucket self bucket locals w = (Raise missing_class, w')
    /\ observes w w'
    /\ api_calls w'
       = api_calls w ++ [CallGetBucketLifecycleConfiguration (Name bucket)]
    /\ stdout w' = stdout w ++ [LnAnalyzing (Name bucket)].
Proof.
  intros Hanswer.
  destruct (get_bucket_lifecycle_escapes (Name bucket)
              (add_line (LnAnalyzing (Name bucket)) w) e Hanswer)
    as (w' & Hrun & Hobs & Hcalls & Hout).
  exists w'. split.
  { unfold audit_bucket. cbv zeta. rewrite bind_print.
    by apply bind_raise. }
  split; [eapply observes_trans; [apply observes_add_line | exact Hobs]|].
  split; [exact Hcalls | exact Hout].
Qed.

(** A turn of the loop under a configuration without standard rate. *)
Lemma audit_bucket_unconfigured (self : Optimizer) (bucket : Bucket)
    (locals : AuditLocals) (w : World) :
  configured_cost (config self) "standard" = None ->
  lifecycle_readable (provider w) bucket ->
  exists key w',
    audit_bucket self bucket locals w = (Raise (KeyError key), w')
    /\ observes w w'
    /\ api_calls w' = api_calls w ++ bucket_calls (clock w) (Name bucket).
Proof.
  intros Hcfg [response Hanswer].
  destruct (bucket_reads_run (Name bucket)
              (add_line (LnAnalyzing (Name bucket)) w) response Hanswer)
    as (w1 & w2 & w3 & Hrun1 & Hrun2 & Hrun3 & Hobs & Hcalls).
  destruct (calculate_current_cost_unconfigured self
              (size_seen (provider w) (clock w) (Name bucket))
              "standard" Hcfg) as [key Hkey].
  exists key, w3. split.
  { unfold audit_bucket. cbv zeta. rewrite bind_print.
    rewrite (bind_run _ _ _ _ _ Hrun1).
    rewrite (bind_run _ _ _ _ _ Hrun2).
    rewrite (bind_run _ _ _ _ _ Hrun3).
    cbn [provider clock add_line]. rewrite bind_lift, Hkey. reflexivity. }
  split; [eapply observes_trans; [apply observes_add_line | exact Hobs]|].
  exact Hcalls.
Qed.

Section Audit.

Variable self : Optimizer.
Variable rate : Qc.
Hypothesis standard_rate :
  configured_cost (config self) "standard" = Some rate.
Variable pre : Provider -> Prop.

(** A turn of the loop for a bucket whose lifecycle read is answered. *)
Lemma audit_bucket_traced (bucket : Bucket) (locals : AuditLocals) :
  (forall p, pre p -> lifecycle_readable p bucket) ->
  traced pre (audit_bucket self bucket locals)
    (fun p now locals' calls => audited rate p now bucket locals locals' calls).
Proof.
  intros Hread. unfold audit_bucket. cbv zeta.
  apply traced_bind_print.
  eapply traced_bind_good; [by apply get_bucket_lifecycle_traced|].
  intros lifecycle Hpolicy.
  eapply traced_bind; [apply get_bucket_size_traced|].
  intros size_bytes.
  eapply traced_bind; [apply get_bucket_object_count_traced|].
  intros object_count.
  eapply traced_bind_lift; [by apply calculate_current_cost_configured|].
  rewrite (bool_decide_eq_true_2 _ Hpolicy). cbn [negb andb].
  do 4 apply traced_bind_print.
  apply traced_bind_ret. cbv beta iota.
  apply traced_ret.
  intros p now c3 [-> ->] c2 [-> ->] c1 ->.
  unfold audited, reported. cbn.
  split; [done|]. split; [|done].
  eexists. split; [reflexivity|]. cbn.
  do 4 (split; [done|]). apply NumFacts.py_round_0.
Qed.

Lemma audit_invariant_step
    (p : Provider) (now : Z) (done : list Bucket) (bucket : Bucket)
    (locals locals' : AuditLocals) (calls0 calls : list ApiCall) :
  audit_invariant rate p now done locals calls0 ->
  audited rate p now bucket locals locals' calls ->
  audit_invariant rate p now (done ++ [bucket]) locals' (calls0 ++ calls).
Proof.
  intros (-> & Hrecords & Hsize & Hcost & Hsavings & Hcount)
         (-> & (record & Hresults & Hreported) & Hsize' & Hcost' & Hsavings'
          & Hcount').
  unfold audit_invariant, sizes_seen, costs_seen.
  rewrite !fmap_app, concat_app, Hresults.
  split; [f_equal; symmetry; apply (app_nil_r (bucket_calls now (Name bucket)))|].
  split; [apply Forall2_app; [done | by constructor]|].
  split.
  { rewrite Hsize', Hsize. symmetry.
    apply (running_total_snoc _ (size_seen p now (Name bucket))). }
  split.
  { rewrite Hcost', Hcost. symmetry.
    apply (running_total_snoc _
             (size_seen p now (Name bucket) / Num.GiB * rate)). }
  split; congruence.
Qed.

Lemma audit_for_each_traced (buckets : list Bucket) (locals : AuditLocals) :
  (forall p, pre p -> Forall (lifecycle_readable p) buckets) ->
  traced pre (for_each buckets (audit_bucket self) locals)
    (fun p now locals' calls =>
       forall done calls0,
         audit_invariant rate p now done locals calls0 ->
         audit_invariant rate p now (done ++ buckets) locals' (calls0 ++ calls)).
Proof.
  intros Hread.
  apply (traced_for_each pre (audit_bucket self) (audit_invariant rate)).
  intros bucket s Hin.
  eapply traced_weaken.
  { apply audit_bucket_traced. intros p Hpre.
    pose proof (Hread p Hpre) as Hall. rewrite list.Forall_forall in Hall.
    by apply Hall. }
  intros p now locals' calls Hstep done calls0 Hinv.
  by eapply audit_invariant_step.
Qed.

End Audit.

(** [audit_buckets] up to its loop: the header, the listing and the count of
    the buckets found. *)
Lemma audit_loop_after_listing (self : Optimizer) (w : World)
    (buckets : list Bucket) :
  on_list_buckets (provider w) = Ok buckets ->
  exists w1,
    observes w w1
    /\ api_calls w1 = api_calls w ++ [CallListBuckets]
    /\ audit_loop self w
       = bind (for_each buckets (audit_bucket self) initial_locals)
           (fun locals => ret (buckets, locals)) w1.
Proof.
  intros Hlist.
  set (w0 := add_line LnSeparator
               (add_line (LnGenerated (clock w)) (add_line LnAuditTitle w))).
  assert (Hobs0 : observes w w0).
  { repeat (eapply observes_trans; [|apply observes_add_line]).
    apply observes_refl. }
  destruct (contacted CallListBuckets w0) as (Hobs1 & Hcalls1 & _).
  set (w1 := snd (contact CallListBuckets (provider w0) w0)) in *.
  assert (Hrun1 : get_all_buckets w0 = (Ok buckets, w1)).
  { cbv [get_all_buckets s3_client.list_buckets bind the_provider contact
         lift]. cbn [provider add_line w0]. by rewrite Hlist. }
  exists (add_line (LnFound (length buckets)) w1).
  split; [|split].
  - eapply observes_trans; [exact Hobs0|].
    eapply observes_trans; [exact Hobs1 | apply observes_add_line].
  - exact Hcalls1.
  - unfold audit_loop. rewrite bind_print, bind_now, !bind_print. fold w0.
    rewrite (bind_run _ _ _ _ _ Hrun1), bind_print. reflexivity.
Qed.

(** The loop goes through when the lifecycle read of every listed bucket is
    answered. *)
Lemma audit_loop_completes (self : Optimizer) (rate : Qc) (w : World)
    (buckets : list Bucket) :
  configured_cost (config self) "standard" = Some rate ->
  on_list_buckets (provider w) = Ok buckets ->
  Forall (lifecycle_readable (provider w)) buckets ->
  exists locals w' reads,
    audit_loop self w = (Ok (buckets, locals), w')
    /\ observes w w'
    /\ api_calls w' = api_calls w ++ CallListBuckets :: reads
    /\ audit_invariant rate (provider w) (clock w) buckets locals reads.
Proof.
  intros Hcfg Hlist Hread.
  destruct (audit_loop_after_listing self w buckets Hlist)
    as (w1 & Hobs1 & Hcalls1 & Hloop).
  pose proof (proj1 Hobs1) as Hp1.
  pose proof (proj1 (proj2 Hobs1)) as Hk1.
  destruct (audit_for_each_traced self rate Hcfg
              (fun p => p = provider w) buckets initial_locals
              ltac:(by intros p ->) w1 Hp1)
    as (locals & w2 & reads & Hrun & Hobs2 & Hcalls2 & Hinv).
  exists locals, w2, reads.
  split; [rewrite Hloop; by rewrite (bind_run _ _ _ _ _ Hrun)|].
  split; [by eapply observes_trans|].
  split; [by rewrite Hcalls2, Hcalls1, <- app_assoc|].
  rewrite Hp1, Hk1 in Hinv. apply (Hinv [] []).
  by repeat split; try constructor.
Qed.

(** The loop ends at the first bucket whose lifecycle read raises. *)
Lemma audit_loop_escapes (self : Optimizer) (rate : Qc) (w : World)
    (done : list Bucket) (bucket : Bucket) (rest : list Bucket) (e : exn) :
  configured_cost (config self) "standard" = Some rate ->
  on_list_buckets (provider w) = Ok (done ++ bucket :: rest) ->
  Forall (lifecycle_readable (provider w)) done ->
  on_get_bucket_lifecycle_configuration (provider w) (Name bucket) = Raise e ->
  exists w',
    audit_loop self w = (Raise missing_class, w') /\ observes w w'.
Proof.
  intros Hcfg Hlist Hread Hanswer.
  destruct (audit_loop_after_listing self w _ Hlist)
    as (w1 & Hobs1 & _ & Hloop).
  pose proof (proj1 Hobs1) as Hp1.
  destruct (audit_for_each_traced self rate Hcfg
              (fun p => p = provider w) done initial_locals
              ltac:(by intros p ->) w1 Hp1)
    as (locals & w2 & reads & Hrun & Hobs2 & _).
  pose proof (proj1 Hobs2) as Hp2.
  destruct (audit_bucket_escapes self bucket locals w2 e)
    as (w3 & Hrun3 & Hobs3 & _).
  { by rewrite Hp2, Hp1. }
  exists w3. split.
  - rewrite Hloop. apply bind_raise. rewrite for_each_app.
    rewrite (bind_run _ _ _ _ _ Hrun). cbn [for_each].
    by apply bind_raise.
  - eapply observes_trans; [exact Hobs1|]. by eapply observes_trans.
Qed.

(** [audit_buckets] after its loop: the summary. *)
Lemma audit_buckets_after_loop (self : Optimizer) (w : World)
    (buckets : list Bucket) (locals : AuditLocals) (w1 : World) :
  audit_loop self w = (Ok (buckets, locals), w1) ->
  exists w',
    audit_buckets self w = (Ok (audit_results locals), w')
    /\ observes w1 w'
    /\ api_calls w' = api_calls w1
    /\ stdout w'
       = stdout w1
         ++ [ LnSeparator; LnSummaryTitle; LnSeparator;
              LnTotalBuckets (length buckets);
              LnBucketsWithoutLifecycle (buckets_without_lifecycle locals);
              LnTotalStorage (total_size locals / Num.TiB);
              LnCurrentMonthlyCost (total_cost locals);
              LnPotentialMonthlySavings (total_savings locals);
              LnPotentialAnnualSavings (total_savings locals * Num.of_Z 12) ].
Proof.
  intros Hrun. eexists. split.
  { unfold audit_buckets. rewrite (bind_run _ _ _ _ _ Hrun). reflexivity. }
  split.
  { repeat (eapply observes_trans; [|apply observes_add_line]).
    apply observes_refl. }
  split; [reflexivity|].
  rewrite !stdout_add_line. by rewrite <- !app_assoc.
Qed.

Lemma audit_buckets_escapes (self : Optimizer) (rate : Qc) (w : World)
    (done : list Bucket) (bucket : Bucket) (rest : list Bucket) (e : exn) :
  configured_cost (config self) "standard" = Some rate ->
  on_list_buckets (provider w) = Ok (done ++ bucket :: rest) ->
  Forall (lifecycle_readable (provider w)) done ->
  on_get_bucket_lifecycle_configuration (provider w) (Name bucket) = Raise e ->
  exists w',
    audit_buckets self w = (Raise missing_class, w') /\ observes w w'.
Proof.
  intros Hcfg Hlist Hread Hanswer.
  destruct (audit_loop_escapes self rate w done bucket rest e Hcfg Hlist
              Hread Hanswer) as (w' & Hrun & Hobs).
  exists w'. split; [|exact Hobs].
  unfold audit_buckets. by apply bind_raise.
Qed.

Lemma reported_names (p : Provider) (now : Z)
    (buckets : list Bucket) (results : list AuditRecord.t) :
  Forall2 (reported p now) buckets results ->
  AuditRecord.bucket_name <$> results = Name <$> buckets.
Proof.
  induction 1 as [|bucket record bs rs (Hname & _) _ IH]; [done|].
  rewrite !fmap_cons. by rewrite Hname, IH.
Qed.

(* ===================================================================== *)
(** ** The audit and the lifecycle read *)
(* ===================================================================== *)

(** C3. The gate of the loop is never passed.  A bucket without lifecycle
    policy is a bucket whose lifecycle read the provider answers with an
    exception; for such a bucket, of whatever size, the turn of the loop ends
    with [AttributeError] right after the "Analyzing" line: no recommendation
    is computed, nothing is added to the savings and the bucket is not
    counted.  And whenever a turn of the loop returns, the lifecycle read was
    answered, the record shows a policy, "N/A" and zero savings, and the
    counter and the savings total are as before. *)
Theorem audit_computes_no_recommendation
    (self : Optimizer) (bucket : Bucket) (locals : AuditLocals) (w : World) :
  (forall e,
     on_get_bucket_lifecycle_configuration (provider w) (Name bucket)
     = Raise e ->
     exists w',
       audit_bucket self bucket locals w
       = (Raise (AttributeError "NoSuchLifecycleConfiguration"), w')
       /\ stdout w' = stdout w ++ [LnAnalyzing (Name bucket)])
  /\ (forall locals' w',
        audit_bucket self bucket locals w = (Ok locals', w') ->
        lifecycle_readable (provider w) bucket
        /\ exists record,
             audit_results locals' = audit_results locals ++ [record]
             /\ AuditRecord.has_lifecycle record = true
             /\ AuditRecord.recommendation record = "N/A"
             /\ AuditRecord.potential_savings record = 0
             /\ buckets_without_lifecycle locals'
                = buckets_without_lifecycle locals
             /\ total_savings locals' = total_savings locals).
Proof.
  split.
  - intros e Hanswer.
    destruct (audit_bucket_escapes self bucket locals w e Hanswer)
      as (w' & Hrun & _ & _ & Hout).
    by exists w'.
  - intros locals' w' Hrun.
    destruct (on_get_bucket_lifecycle_configuration (provider w) (Name bucket))
      as [response|e] eqn:Hanswer.
    + assert (Hread : lifecycle_readable (provider w) bucket)
        by (by exists response).
      split; [exact Hread|].
      destruct (configured_cost (config self) "standard") as [rate|] eqn:Hcfg.
      * destruct (audit_bucket_traced self rate Hcfg (fun p => p = provider w)
                    bucket locals ltac:(by intros p ->) w eq_refl)
          as (locals'' & w'' & calls & Hrun' & _ & _ & _
              & (record & Hresults & _ & Hhas & _ & HNA & Hzero) & _ & _
              & Hsavings & Hcount).
        rewrite Hrun in Hrun'. injection Hrun' as <- <-.
        by exists record.
      * destruct (audit_bucket_unconfigured self bucket locals w Hcfg Hread)
          as (key & w'' & Hrun' & _).
        rewrite Hrun in Hrun'. discriminate Hrun'.
    + destruct (audit_bucket_escapes self bucket locals w e Hanswer)
        as (w'' & Hrun' & _).
      rewrite Hrun in Hrun'. discriminate Hrun'.
Qed.

Lemma audit_computes_no_recommendation_witness :
  on_get_bucket_lifecycle_configuration (provider sample_world)
    "prod-logs-archive"
  = Raise (ProviderError "NoSuchLifecycleConfiguration")
  /\ Num.of_Z (2 ^ 30)
     < size_seen (provider sample_world) (clock sample_world)
         "prod-logs-archive"
  /\ exists w',
       audit_bucket sample_self {| Name := "prod-logs-archive" |}
         initial_locals sample_world
       = (Raise (AttributeError "NoSuchLifecycleConfiguration"), w')
       /\ stdout w' = [LnAnalyzing "prod-logs-archive"].
Proof.
  split; [reflexivity|]. split; [by vm_compute|].
  destruct (audit_computes_no_recommendation sample_self
              {| Name := "prod-logs-archive" |} initial_locals sample_world)
    as [Hescape _].
  exact (Hescape _ eq_refl).
Defined.

(** C9. The size read and the object-count read catch every exception and
    fall back to zero, also when the metrics answer holds no data point for
    the 2-day window.  The lifecycle read does not: when the provider raises,
    whatever the exception and also for the "not configured" answer, the
    evaluation of the first [except] clause raises [AttributeError], which
    leaves [get_bucket_lifecycle] without a message.  Hence the audit ends
    with that exception at the first listed bucket whose lifecycle read
    raises, and returns no record, not even for the buckets before it. *)
Theorem lifecycle_read_error_aborts_audit (self : Optimizer) (rate : Qc) :
  (forall bucket_name w e,
     on_get_bucket_lifecycle_configuration (provider w) bucket_name
     = Raise e ->
     exists w',
       get_bucket_lifecycle bucket_name w
       = (Raise (AttributeError "NoSuchLifecycleConfiguration"), w')
       /\ stdout w' = stdout w)
  /\ (forall bucket_name w,
        let answer :=
          on_get_metric_statistics (provider w)
            (metric_request (clock w) "BucketSizeBytes" "StandardStorage"
               bucket_name) in
        exists size_bytes w',
          get_bucket_size bucket_name w = (Ok size_bytes, w')
          /\ (forall e, answer = Raise e -> size_bytes = 0)
          /\ (answer = Ok {| Datapoints := [] |} -> size_bytes = 0))
  /\ (forall bucket_name w,
        let answer :=
          on_get_metric_statistics (provider w)
            (metric_request (clock w) "NumberOfObjects" "AllStorageTypes"
               bucket_name) in
        exists object_count w',
          get_bucket_object_count bucket_name w = (Ok object_count, w')
          /\ (forall e, answer = Raise e -> object_count = 0%Z)
          /\ (answer = Ok {| Datapoints := [] |} -> object_count = 0%Z))
  /\ (forall w done bucket rest e,
        configured_cost (config self) "standard" = Some rate ->
        on_list_buckets (provider w) = Ok (done ++ bucket :: rest) ->
        Forall (lifecycle_readable (provider w)) done ->
        on_get_bucket_lifecycle_configuration (provider w) (Name bucket)
        = Raise e ->
        exists w',
          audit_buckets self w
          = (Raise (AttributeError "NoSuchLifecycleConfiguration"), w')
          /\ files w' = files w).
Proof.
  split; [|split; [|split]].
  - intros bucket_name w e Hanswer.
    destruct (get_bucket_lifecycle_escapes bucket_name w e Hanswer)
      as (w' & Hrun & _ & _ & Hout).
    by exists w'.
  - intros bucket_name w answer.
    destruct (get_bucket_size_traced (fun _ => True) bucket_name w I)
      as (size_bytes & w' & calls & Hrun & _ & _ & -> & _).
    eexists _, w'. split; [exact Hrun|]. unfold size_seen. fold answer.
    split; [intros e ->|intros ->]; reflexivity.
  - intros bucket_name w answer.
    destruct (get_bucket_object_count_traced (fun _ => True) bucket_name w I)
      as (object_count & w' & calls & Hrun & _ & _ & -> & _).
    eexists _, w'. split; [exact Hrun|]. unfold count_seen. fold answer.
    split; [intros e ->|intros ->]; reflexivity.
  - intros w done bucket rest e Hcfg Hlist Hread Hanswer.
    destruct (audit_buckets_escapes self rate w done bucket rest e Hcfg Hlist
                Hread Hanswer) as (w' & Hrun & Hobs).
    exists w'. split; [exact Hrun|]. apply Hobs.
Qed.

Lemma lifecycle_read_error_aborts_audit_witness :
  configured_cost (config sample_self) "standard" = Some (Num.frac 23 1000)
  /\ on_list_buckets (provider sample_world)
     = Ok ([] ++ {| Name := "prod-logs-archive" |}
              :: [ {| Name := "tiny-bucket" |}; {| Name := "Media-Archive" |};
                   {| Name := "exact-one-gb" |};
                   {| Name := "managed-backup" |}; {| Name := "broken" |} ])
  /\ on_get_bucket_lifecycle_configuration (provider sample_world)
       "prod-logs-archive"
     = Raise (ProviderError "NoSuchLifecycleConfiguration")
  /\ exists w',
       audit_buckets sample_self sample_world
       = (Raise (AttributeError "NoSuchLifecycleConfiguration"), w')
       /\ files w' = ∅.
Proof.
  split; [by vm_compute|]. split; [reflexivity|]. split; [reflexivity|].
  destruct (lifecycle_read_error_aborts_audit sample_self (Num.frac 23 1000))
    as (_ & _ & _ & Haudit).
  exact (Haudit sample_world [] {| Name := "prod-logs-archive" |} _
           (ProviderError "NoSuchLifecycleConfiguration")
           ltac:(by vm_compute) eq_refl (Forall_nil _) eq_refl).
Defined.

(** C10. At exactly 2^30 bytes [recommend_lifecycle_policy], called directly,
    returns a recommendation: its test "strictly less than 1 GB" is false
    there, as is the test "strictly greater than 1 GB" of the gate of the
    audit loop.  For a bucket without lifecycle policy, of that size or any
    other, the turn of the audit loop does not reach the gate: the lifecycle
    read raises [AttributeError] and the turn ends with it, so that no record
    is written for the bucket. *)
Theorem threshold_boundary_bucket_aborts_audit
    (self : Optimizer) (rate : Qc) (bucket : Bucket) (locals : AuditLocals)
    (w : World) (e : exn) :
  configured_cost (config self) "standard" = Some rate ->
  on_get_bucket_lifecycle_configuration (provider w) (Name bucket) = Raise e ->
  (forall object_count,
     exists recommendation savings,
       recommend_lifecycle_policy self (Name bucket) (Num.of_Z (2 ^ 30))
         object_count
       = Ok (Some recommendation, savings))
  /\ Num.ltb (Num.of_Z (2 ^ 30) / Num.GiB) 1 = false
  /\ Num.gtb (Num.of_Z (2 ^ 30) / Num.GiB) 1 = false
  /\ exists w',
       audit_bucket self bucket locals w
       = (Raise (AttributeError "NoSuchLifecycleConfiguration"), w')
       /\ stdout w' = stdout w ++ [LnAnalyzing (Name bucket)].
Proof.
  intros Hcfg Hanswer. rewrite <- NumFacts.GiB_pow2.
  split; [|split; [|split]].
  - intros object_count.
    destruct (recommend_large_strategy self rate (Name bucket) Num.GiB
                object_count Hcfg)
      as (recommendation & savings & Hrec & _);
      [apply Qcle_refl | by eauto].
  - apply NumFacts.ltb_size_gb_large, Qcle_refl.
  - apply not_true_iff_false. intros Hgt.
    apply (proj1 (NumFacts.gtb_size_gb _)), Qclt_not_le in Hgt.
    apply Hgt, Qcle_refl.
  - destruct (audit_bucket_escapes self bucket locals w e Hanswer)
      as (w' & Hrun & _ & _ & Hout).
    by exists w'.
Qed.

Lemma threshold_boundary_bucket_aborts_audit_witness :
  configured_cost (config sample_self) "standard" = Some (Num.frac 23 1000)
  /\ on_get_bucket_lifecycle_configuration (provider sample_world)
       "exact-one-gb"
     = Raise (ProviderError "NoSuchLifecycleConfiguration")
  /\ size_seen (provider sample_world) (clock sample_world) "exact-one-gb"
     = Num.of_Z (2 ^ 30)
  /\ (exists recommendation savings,
        recommend_lifecycle_policy sample_self "exact-one-gb"
          (Num.of_Z (2 ^ 30)) 12
        = Ok (Some recommendation, savings))
  /\ exists w',
       audit_bucket sample_self {| Name := "exact-one-gb" |} initial_locals
         sample_world
       = (Raise (AttributeError "NoSuchLifecycleConfiguration"), w').
Proof.
  split; [by vm_compute|]. split; [reflexivity|]. split; [by vm_compute|].
  destruct (threshold_boundary_bucket_aborts_audit sample_self
              (Num.frac 23 1000) {| Name := "exact-one-gb" |} initial_locals
              sample_world (ProviderError "NoSuchLifecycleConfiguration")
              ltac:(by vm_compute) eq_refl)
    as (Hdirect & _ & _ & w' & Hrun & _).
  split; [exact (Hdirect 12%Z)|]. exists w'. exact Hrun.
Defined.

(* ===================================================================== *)
(** ** Policy documents *)
(* ===================================================================== *)

Lemma enumerate_from_lookup {A} (k : nat) (l : list A) (i : nat) :
  enumerate_from k l !! i = (fun x => (k + i, x)%nat) <$> (l !! i).
Proof.
  revert k i. induction l as [|x l IH]; intros k [|i]; simpl; try done.
  - by rewrite Nat.add_0_r.
  - rewrite IH. by replace (S k + i)%nat with (k + S i)%nat by lia.
Qed.

(** The loop of [generate_lifecycle_policy] appends one rule per pair. *)
Lemma rules_loop (pairs : list (nat * Transition)) (rules : list Rule) :
  fold_left
    (fun rules '(i, transition) => rules ++ [optimization_rule i transition])
    pairs rules
  = rules ++ ((fun '(i, transition) => optimization_rule i transition)
              <$> pairs).
Proof.
  revert rules. induction pairs as [|[i t] pairs IH]; intros rules; simpl.
  - by rewrite app_nil_r.
  - by rewrite IH, <- app_assoc.
Qed.

Lemma of_nat_reads_back (n : nat) :
  NilEmpty.uint_of_string (Str.of_nat n) = Some (Nat.to_uint n).
Proof. apply NilEmpty.usu. Qed.

(** C6. For a recommendation with N transitions, [generate_lifecycle_policy]
    builds a policy document with exactly N rules, in the order of the
    transitions; the rule at 1-based position i has identifier
    OptimizationRule<i> (i written as a decimal numeral), status "Enabled"
    and a single transition carrying the day offset and storage class of the
    i-th transition.  The function is a pure function of the recommendation:
    it touches neither the provider, the terminal nor the files. *)
Theorem policy_document_has_one_rule_per_transition
    (recommendation : Recommendation) :
  let rules := Rules (generate_lifecycle_policy recommendation) in
  length rules = length (transitions recommendation)
  /\ forall (i : nat) (transition : Transition),
       transitions recommendation !! i = Some transition ->
       rules !! i
       = Some {| Id := String.append "OptimizationRule" (Str.of_nat (i + 1));
                 Status := "Enabled";
                 Transitions :=
                   [ {| Days := days transition;
                        StorageClass := storage_class transition |} ] |}
       /\ NilEmpty.uint_of_string (Str.of_nat (i + 1))
          = Some (Nat.to_uint (i + 1)).
Proof.
  unfold generate_lifecycle_policy. cbv zeta. cbn [Rules].
  rewrite rules_loop, app_nil_l. unfold enumerate. split.
  - rewrite length_fmap.
    generalize 0%nat. induction (transitions recommendation) as [|t l IH];
      intros k; simpl; [done | by rewrite IH].
  - intros i transition Hi. split; [|apply of_nat_reads_back].
    by rewrite list_lookup_fmap, enumerate_from_lookup, Hi.
Qed.

Lemma policy_document_has_one_rule_per_transition_witness :
  transitions sample_recommendation !! 1%nat
  = Some {| days := 90; storage_class := "GLACIER_IR" |}
  /\ Rules (generate_lifecycle_policy sample_recommendation) !! 1%nat
     = Some {| Id := "OptimizationRule2";
               Status := "Enabled";
               Transitions :=
                 [ {| Days := 90; StorageClass := "GLACIER_IR" |} ] |}.
Proof.
  split; [reflexivity|].
  destruct (policy_document_has_one_rule_per_transition sample_recommendation)
    as [_ Hrules].
  destruct (Hrules 1%nat _ eq_refl) as [Hrule _]. exact Hrule.
Defined.

(* ===================================================================== *)
(** ** Applying a policy *)
(* ===================================================================== *)

(** In live mode the provider is contacted, whether it accepts or not. *)
Lemma live_apply_contacts_provider
    (bucket_name : string) (policy : Policy) (w : World) :
  exists ok w',
    apply_lifecycle_policy bucket_name policy false w = (Ok ok, w')
    /\ api_calls w'
       = api_calls w ++ [CallPutBucketLifecycleConfiguration bucket_name policy]
    /\ ok = bool_decide
              (on_put_bucket_lifecycle_configuration (provider w) bucket_name
                 policy = None).
Proof.
  cbv [apply_lifecycle_policy try_except bind
       s3_client.put_bucket_lifecycle_configuration the_provider contact
       raise print ret].
  destruct (on_put_bucket_lifecycle_configuration (provider w) bucket_name
              policy) as [e|]; by eexists _, _.
Qed.

(** C7. For every bucket name and every policy document, [apply_lifecycle_policy]
    with the dry-run flag set returns [True] and does not contact the
    provider: no call is logged, the provider and the files are unchanged,
    and the only effect is the display of the bucket name and the policy. *)
Theorem dry_run_never_contacts_provider
    (bucket_name : string) (policy : Policy) (w : World) :
  exists w',
    apply_lifecycle_policy bucket_name policy true w = (Ok true, w')
    /\ provider w' = provider w
    /\ api_calls w' = api_calls w
    /\ files w' = files w
    /\ clock w' = clock w
    /\ stdout w' = stdout w ++ [LnDryRun bucket_name; LnPolicyJson policy].
Proof.
  eexists. split; [reflexivity|]. simpl.
  repeat split. by rewrite <- app_assoc.
Qed.

(* ===================================================================== *)
(** ** The command surface *)
(* ===================================================================== *)

(** C8. For every command line and every world (configuration files,
    provider, files), the [audit] mode and the [recommend] mode do the same:
    both load the configuration, run the full audit over the listed buckets
    and, when an output path is given, export the records; result and final
    world are equal. *)
Theorem audit_and_recommend_modes_agree (a : args.t) (w : World) :
  main (with_mode mode_audit a) w = main (with_mode mode_recommend a) w
  /\ main (with_mode mode_recommend a) w
     = (let! optimizer := init (args.config a) in
        let! results := audit_buckets optimizer in
        match output_given (args.output a) with
        | Some path => export_to_csv results path
        | None => ret tt
        end) w.
Proof. split; reflexivity. Qed.


(** The two modes on the sample data.  With a lifecycle configuration on
    every bucket the report is written; with a bucket that has none the run
    ends with the exception of the lifecycle read and writes no report. *)
Example audit_mode_writes_report :
  (fieldnames <$> files (snd (main sample_args managed_world)) !! "report.csv")
  = Some ["bucket_name"; "size_gb"; "object_count"; "has_lifecycle";
          "current_cost"; "recommendation"; "potential_savings"]
  /\ (length ∘ rows <$> files (snd (main sample_args managed_world))
                          !! "report.csv")
     = Some 6%nat.
Proof. by vm_compute. Qed.

Example audit_mode_aborts_without_report :
  fst (main sample_args sample_world)
  = Raise (AttributeError "NoSuchLifecycleConfiguration")
  /\ files (snd (main sample_args sample_world)) !! "report.csv" = None
  /\ stdout (snd (main sample_args sample_world))
     = [ LnAuditTitle; LnGenerated 1700000000; LnSeparator; LnFound 6;
         LnAnalyzing "prod-logs-archive" ].
Proof. by vm_compute. Qed.

(* ===================================================================== *)
(** ** Instances on the sample data *)
(* ===================================================================== *)

Lemma recommend_classifies_by_name_witness :
  configured_cost (config sample_self) "standard" = Some (Num.frac 23 1000)
  /\ Num.of_Z (2 ^ 30) <= GB 500
  /\ exists recommendation savings,
       recommend_lifecycle_policy sample_self "prod-logs-archive" (GB 500) 12
       = Ok (Some recommendation, savings)
       /\ strategy recommendation = "Intelligent-Tiering + Glacier".
Proof.
  assert (Hcfg : configured_cost (config sample_self) "standard"
                 = Some (Num.frac 23 1000)) by (by vm_compute).
  assert (Hsize : Num.of_Z (2 ^ 30) <= GB 500) by (by vm_compute).
  split; [exact Hcfg|]. split; [exact Hsize|].
  destruct (recommend_classifies_by_name sample_self (Num.frac 23 1000)
              "prod-logs-archive" (GB 500) 12 Hcfg Hsize)
    as (recommendation & savings & Hrec & Hlog & _).
  exists recommendation, savings. split; [exact Hrec|].
  rewrite Hlog; [reflexivity|].
  left. exists "prod-", "log", "s-archive". split; reflexivity.
Defined.

Lemma recommend_below_threshold_witness :
  Num.GiB / Num.of_Z 2 < Num.of_Z (2 ^ 30)
  /\ recommend_lifecycle_policy sample_self "tiny-bucket"
       (Num.GiB / Num.of_Z 2) 12
     = Ok (None, 0).
Proof.
  assert (Hsize : Num.GiB / Num.of_Z 2 < Num.of_Z (2 ^ 30)) by (by vm_compute).
  split; [exact Hsize|].
  exact (recommend_below_threshold sample_self "tiny-bucket" _ 12 Hsize).
Defined.

Lemma savings_formula_and_fixed_label_witness :
  configured_cost (config sample_self) "standard" = Some (Num.frac 23 1000)
  /\ Num.of_Z (2 ^ 30) <= GB 40
  /\ exists recommendation savings,
       recommend_lifecycle_policy sample_self "Media-Archive" (GB 40) 12
       = Ok (Some recommendation, savings)
       /\ savings_percentage recommendation = 96%Z.
Proof.
  assert (Hcfg : configured_cost (config sample_self) "standard"
                 = Some (Num.frac 23 1000)) by (by vm_compute).
  assert (Hsize : Num.of_Z (2 ^ 30) <= GB 40) by (by vm_compute).
  split; [exact Hcfg|]. split; [exact Hsize|].
  destruct (savings_formula_and_fixed_label sample_self (Num.frac 23 1000)
              "Media-Archive" (GB 40) 12 Hcfg Hsize)
    as (recommendation & savings & current_cost & unit_cost & Hrec & _ & _ & _
        & _ & _ & Harchive & _).
  exists recommendation, savings. split; [exact Hrec|].
  apply Harchive.
  - intros [H|H]; apply (StrFacts.str_in_lower_spec _ _ eq_refl) in H;
      discriminate H.
  - exists "Media-", "Archive", "". split; reflexivity.
Defined.

Lemma current_cost_linear_witness :
  configured_cost (config sample_self) "glacier" = Some (Num.frac 4 1000)
  /\ exists cost,
       calculate_current_cost sample_self (GB 40) "glacier" = Ok cost
       /\ calculate_current_cost sample_self (Num.of_Z 2 * GB 40) "glacier"
          = Ok (Num.of_Z 2 * cost).
Proof.
  assert (Hcfg : configured_cost (config sample_self) "glacier"
                 = Some (Num.frac 4 1000)) by (by vm_compute).
  split; [exact Hcfg|].
  destruct (current_cost_linear sample_self (GB 40) (Num.frac 4 1000)
              "glacier" Hcfg) as (cost & Hcost & _ & Hdouble).
  exists cost. split; [exact Hcost | exact Hdouble].
Defined.

(** A name with both "log" and "archive" goes to the first rule; 500 GB at
    the standard rate 0.023 cost 11.5, the estimate is 500 times 0.004. *)
Example prod_logs_archive_500GB :
  recommend_lifecycle_policy sample_self "prod-logs-archive" (GB 500) 0
  = Ok (Some {| strategy := "Intelligent-Tiering + Glacier";
                transitions :=
                  [ {| days := 30; storage_class := "INTELLIGENT_TIERING" |};
                    {| days := 90; storage_class := "GLACIER_IR" |} ];
                estimated_cost := Num.of_Z 500 * Num.frac 4 1000;
                savings_percentage := 83 |},
        Num.of_Z 500 * Num.frac 23 1000 - Num.of_Z 500 * Num.frac 4 1000).
Proof.
  rewrite (recommend_large sample_self (Num.frac 23 1000));
    [|by vm_compute|by vm_compute].
  change (Str.str_in "log" (Str.lower "prod-logs-archive")
          || Str.str_in "backup" (Str.lower "prod-logs-archive")) with true.
  cbv iota.
  replace (GB 500 / Num.GiB) with (Num.of_Z 500);
    [reflexivity | apply Qc_is_canon; reflexivity].
Qed.

(** The label need not agree with the arithmetic: at a standard rate of 0.01
    the aggressive strategy saves 60 percent and is still labelled 83. *)
Example label_differs_from_computed_savings :
  let self := {| config := {[ "analysis" := {[ "storage_costs" :=
                   {[ "standard" := Num.frac 1 100 ]} ]} ]} |} in
  exists recommendation savings,
    recommend_lifecycle_policy self "app-logs" (GB 100) 0
    = Ok (Some recommendation, savings)
    /\ savings_percentage recommendation = 83%Z
    /\ savings / (Num.of_Z 100 * Num.frac 1 100) = Num.frac 60 100.
Proof.
  intros self. eexists _, _.
  split; [apply (recommend_large self (Num.frac 1 100)); by vm_compute|].
  split; [reflexivity|]. apply Qc_is_canon. reflexivity.
Qed.

(* ===================================================================== *)
(** ** Further properties: the requests and the totals of the audit *)
(* ===================================================================== *)

Lemma bucket_calls_kinds (now : Z) (buckets : list Bucket) :
  call_kind
  <$> concat ((fun bucket => bucket_calls now (Name bucket)) <$> buckets)
  = concat (bucket_reads <$> buckets).
Proof.
  induction buckets as [|b bs IH]; [done|].
  rewrite !fmap_cons, !concat_cons, fmap_app, IH. reflexivity.
Qed.

Lemma bucket_calls_length (now : Z) (buckets : list Bucket) :
  length (concat ((fun bucket => bucket_calls now (Name bucket)) <$> buckets))
  = (3 * length buckets)%nat.
Proof.
  induction buckets as [|b bs IH]; [done|].
  rewrite fmap_cons, concat_cons, length_app, IH. simpl. lia.
Qed.

Lemma bucket_calls_no_write (now : Z) (buckets : list Bucket) :
  Forall (fun c => is_write c = false)
    (concat ((fun bucket => bucket_calls now (Name bucket)) <$> buckets)).
Proof.
  induction buckets as [|b bs IH]; [constructor|].
  rewrite fmap_cons, concat_cons. apply Forall_app. split; [|exact IH].
  by repeat constructor.
Qed.

Lemma sizes_seen_steady (p : Provider) (now : Z) (buckets : list Bucket)
    (size_of : Bucket -> Qc) :
  Forall (fun bucket =>
            forall now, size_seen p now (Name bucket) = size_of bucket)
    buckets ->
  sizes_seen p now buckets = size_of <$> buckets.
Proof.
  unfold sizes_seen. induction 1 as [|bucket bs Hsize _ IH]; [done|].
  rewrite !fmap_cons. by rewrite Hsize, IH.
Qed.

Lemma costs_seen_steady (rate : Qc) (p : Provider) (now : Z)
    (buckets : list Bucket) (size_of : Bucket -> Qc) :
  Forall (fun bucket =>
            forall now, size_seen p now (Name bucket) = size_of bucket)
    buckets ->
  costs_seen rate p now buckets
  = (fun bucket => size_of bucket / Num.GiB * rate) <$> buckets.
Proof.
  unfold costs_seen. induction 1 as [|bucket bs Hsize _ IH]; [done|].
  rewrite !fmap_cons. by rewrite Hsize, IH.
Qed.

(** X1. An audit over buckets whose lifecycle reads are all answered goes
    through and sends exactly one listing request and, for every listed
    bucket in listing order, the lifecycle read, the size read and the
    object-count read, whatever the metric reads answer.  It never sends a
    write, and it leaves the provider and the files as they were. *)
Theorem audit_sends_three_reads_per_bucket
    (self : Optimizer) (rate : Qc) (w : World) (buckets : list Bucket) :
  configured_cost (config self) "standard" = Some rate ->
  on_list_buckets (provider w) = Ok buckets ->
  Forall (lifecycle_readable (provider w)) buckets ->
  exists results w' calls,
    audit_buckets self w = (Ok results, w')
    /\ api_calls w' = api_calls w ++ calls
    /\ call_kind <$> calls = ListBuckets :: concat (bucket_reads <$> buckets)
    /\ length calls = (1 + 3 * length buckets)%nat
    /\ Forall (fun c => is_write c = false) calls
    /\ provider w' = provider w
    /\ files w' = files w.
Proof.
  intros Hcfg Hlist Hread.
  destruct (audit_loop_completes self rate w buckets Hcfg Hlist Hread)
    as (locals & w1 & reads & Hrun & Hobs & Hcalls & -> & _).
  destruct (audit_buckets_after_loop self w buckets locals w1 Hrun)
    as (w2 & Hrun2 & Hobs2 & Hcalls2 & _).
  pose proof (observes_trans _ _ _ Hobs Hobs2) as (Hp & _ & _ & _ & Hf & _).
  eexists _, w2, _. split; [exact Hrun2|].
  split; [by rewrite Hcalls2, Hcalls|].
  split; [by rewrite fmap_cons, bucket_calls_kinds|].
  split; [cbn [length]; by rewrite bucket_calls_length|].
  split; [constructor; [done | apply bucket_calls_no_write]|].
  by split.
Qed.

Lemma audit_sends_three_reads_per_bucket_witness :
  configured_cost (config sample_self) "standard" = Some (Num.frac 23 1000)
  /\ on_list_buckets (provider managed_world) = on_list_buckets sample_provider
  /\ exists results w',
       audit_buckets sample_self managed_world = (Ok results, w')
       /\ length (api_calls w') = 19%nat.
Proof.
  split; [by vm_compute|]. split; [reflexivity|].
  destruct (audit_sends_three_reads_per_bucket sample_self (Num.frac 23 1000)
              managed_world _ ltac:(by vm_compute) eq_refl)
    as (results & w' & calls & Hrun & Hcalls & _ & Hlen & _).
  { repeat constructor; by eexists. }
  exists results, w'. split; [exact Hrun|].
  rewrite Hcalls, length_app, Hlen. reflexivity.
Defined.

(** X2. When the audit goes through, every listed bucket counts towards the
    totals of the summary, also a bucket below 1 GB: for buckets whose size
    answer is the same at whatever time it is asked for, the total size is
    the running total of the sizes and the total current cost the running
    total of their costs at the standard rate, both taken in listing order.
    The summary prints them, and it always shows no bucket without lifecycle
    and no potential savings. *)
Theorem audit_totals_cover_every_bucket
    (self : Optimizer) (rate : Qc) (w : World) (buckets : list Bucket)
    (size_of : Bucket -> Qc) :
  configured_cost (config self) "standard" = Some rate ->
  on_list_buckets (provider w) = Ok buckets ->
  Forall (lifecycle_readable (provider w)) buckets ->
  Forall (fun bucket =>
            forall now,
              size_seen (provider w) now (Name bucket) = size_of bucket)
    buckets ->
  exists locals w1 w2,
    audit_loop self w = (Ok (buckets, locals), w1)
    /\ audit_buckets self w = (Ok (audit_results locals), w2)
    /\ total_size locals = running_total (size_of <$> buckets)
    /\ total_cost locals
       = running_total
           ((fun bucket => size_of bucket / Num.GiB * rate) <$> buckets)
    /\ In (LnTotalStorage (total_size locals / Num.TiB)) (stdout w2)
    /\ In (LnCurrentMonthlyCost (total_cost locals)) (stdout w2)
    /\ In (LnBucketsWithoutLifecycle 0) (stdout w2)
    /\ In (LnPotentialMonthlySavings 0) (stdout w2).
Proof.
  intros Hcfg Hlist Hread Hsizes.
  destruct (audit_loop_completes self rate w buckets Hcfg Hlist Hread)
    as (locals & w1 & reads & Hrun & _ & _ & _ & _ & Hsize & Hcost & Hsavings
        & Hcount).
  destruct (audit_buckets_after_loop self w buckets locals w1 Hrun)
    as (w2 & Hrun2 & _ & _ & Hout).
  exists locals, w1, w2.
  split; [exact Hrun|]. split; [exact Hrun2|].
  split; [by rewrite Hsize, (sizes_seen_steady _ _ _ _ Hsizes)|].
  split; [by rewrite Hcost, (costs_seen_steady _ _ _ _ _ Hsizes)|].
  rewrite Hout, Hsavings, Hcount, !in_app_iff. simpl. tauto.
Qed.

Lemma audit_totals_cover_every_bucket_witness :
  let size_of := fun bucket => size_seen managed_provider 0 (Name bucket) in
  configured_cost (config sample_self) "standard" = Some (Num.frac 23 1000)
  /\ on_list_buckets (provider managed_world) = on_list_buckets sample_provider
  /\ exists locals w1,
       audit_loop sample_self managed_world
       = (Ok (default [] (match on_list_buckets sample_provider with
                          | Ok l => Some l
                          | Raise _ => None
                          end), locals), w1)
       /\ total_size locals = GB 1441 + Num.GiB / Num.of_Z 2.
Proof.
  intros size_of. split; [by vm_compute|]. split; [reflexivity|].
  destruct (audit_totals_cover_every_bucket sample_self (Num.frac 23 1000)
              managed_world _ size_of ltac:(by vm_compute) eq_refl)
    as (locals & w1 & w2 & Hrun & _ & Hsize & _).
  { repeat constructor; by eexists. }
  { repeat constructor. }
  exists locals, w1. split; [exact Hrun|].
  rewrite Hsize. apply Qc_is_canon. by vm_compute.
Defined.

(** X3. When the listing fails, the audit fails with the same exception
    before any bucket is looked at: the listing is the only request sent,
    only the three header lines are printed, and the provider and the files
    are unchanged. *)
Theorem audit_aborts_when_listing_fails
    (self : Optimizer) (w : World) (e : exn) :
  on_list_buckets (provider w) = Raise e ->
  exists w',
    audit_buckets self w = (Raise e, w')
    /\ api_calls w' = api_calls w ++ [CallListBuckets]
    /\ stdout w'
       = stdout w ++ [LnAuditTitle; LnGenerated (clock w); LnSeparator]
    /\ provider w' = provider w
    /\ files w' = files w.
Proof.
  intros Hlist. eexists. split.
  { unfold audit_buckets. apply bind_raise. unfold audit_loop.
    rewrite bind_print, bind_now, !bind_print.
    apply bind_raise. unfold get_all_buckets, s3_client.list_buckets.
    cbv [bind the_provider contact lift].
    cbn [provider add_line]. rewrite Hlist. reflexivity. }
  cbn [api_calls stdout provider files add_line clock].
  repeat split. by rewrite <- !app_assoc.
Qed.

Lemma audit_aborts_when_listing_fails_witness :
  let w := {| provider :=
                {| on_list_buckets := Raise (ProviderError "ExpiredToken");
                   on_get_bucket_lifecycle_configuration :=
                     on_get_bucket_lifecycle_configuration sample_provider;
                   on_get_metric_statistics :=
                     on_get_metric_statistics sample_provider;
                   on_put_bucket_lifecycle_configuration :=
                     on_put_bucket_lifecycle_configuration sample_provider |};
              api_calls := []; clock := 0;
              config_files := config_files sample_world;
              open_for_write_fault := fun _ => None;
              files := ∅; stdout := [] |} in
  on_list_buckets (provider w) = Raise (ProviderError "ExpiredToken")
  /\ exists w',
       audit_buckets sample_self w = (Raise (ProviderError "ExpiredToken"), w')
       /\ api_calls w' = [CallListBuckets].
Proof.
  intros w. split; [reflexivity|].
  destruct (audit_aborts_when_listing_fails sample_self w
              (ProviderError "ExpiredToken") eq_refl)
    as (w' & Hrun & Hcalls & _).
  exists w'. split; [exact Hrun | exact Hcalls].
Defined.


(** X4. The configuration is looked up once per bucket: when it supplies no
    standard rate and the first listed bucket has its lifecycle read
    answered, the audit raises [KeyError] at that bucket, after the listing
    and the three reads of the bucket and before any record is returned; with
    no bucket listed the audit returns the empty report all the same. *)
Theorem audit_needs_standard_rate_at_first_bucket
    (self : Optimizer) (w : World) :
  configured_cost (config self) "standard" = None ->
  (forall bucket rest,
     on_list_buckets (provider w) = Ok (bucket :: rest) ->
     lifecycle_readable (provider w) bucket ->
     exists key w' calls,
       audit_buckets self w = (Raise (KeyError key), w')
       /\ api_calls w' = api_calls w ++ calls
       /\ call_kind <$> calls = ListBuckets :: bucket_reads bucket
       /\ provider w' = provider w
       /\ files w' = files w)
  /\ (on_list_buckets (provider w) = Ok [] ->
      exists w', audit_buckets self w = (Ok [], w')).
Proof.
  intros Hcfg. split.
  - intros bucket rest Hlist Hread.
    destruct (audit_loop_after_listing self w _ Hlist)
      as (w1 & Hobs1 & Hcalls1 & Hloop).
    pose proof (proj1 Hobs1) as Hp1.
    rewrite <- Hp1 in Hread.
    destruct (audit_bucket_unconfigured self bucket initial_locals w1 Hcfg
                Hread) as (key & w2 & Hrun & Hobs2 & Hcalls2).
    pose proof (observes_trans _ _ _ Hobs1 Hobs2) as (Hp & _ & _ & _ & Hf & _).
    exists key, w2. eexists. split.
    { unfold audit_buckets. apply bind_raise. rewrite Hloop.
      apply bind_raise. cbn [for_each]. by apply bind_raise. }
    split; [by rewrite Hcalls2, Hcalls1, <- app_assoc|].
    by repeat split.
  - intros Hlist.
    destruct (audit_loop_after_listing self w _ Hlist)
      as (w1 & _ & _ & Hloop).
    assert (Hrun : audit_loop self w = (Ok ([], initial_locals), w1))
      by (by rewrite Hloop).
    destruct (audit_buckets_after_loop self w [] initial_locals w1 Hrun)
      as (w2 & Hrun2 & _).
    by exists w2.
Qed.

Lemma audit_needs_standard_rate_at_first_bucket_witness :
  let self := {| config := {[ "analysis" := {[ "storage_costs" :=
                   {[ "glacier" := Num.frac 4 1000 ]} ]} ]} |} in
  configured_cost (config self) "standard" = None
  /\ exists key w',
       audit_buckets self managed_world = (Raise (KeyError key), w')
       /\ length (api_calls w') = 4%nat.
Proof.
  intros self.
  assert (Hcfg : configured_cost (config self) "standard" = None)
    by (by vm_compute).
  split; [exact Hcfg|].
  destruct (audit_needs_standard_rate_at_first_bucket self managed_world Hcfg)
    as [Hfirst _].
  destruct (Hfirst _ _ eq_refl ltac:(by eexists))
    as (key & w' & calls & Hrun & Hcalls & Hkinds & _).
  exists key, w'. split; [exact Hrun|].
  rewrite Hcalls. apply (f_equal length) in Hkinds.
  rewrite length_fmap in Hkinds. by rewrite length_app, Hkinds.
Defined.

Lemma export_rows_run
    (results : list AuditRecord.t) (output_file : string) (w : World) :
  open_for_write_fault w output_file = None ->
  exists w',
    export_to_csv results output_file w = (Ok tt, w')
    /\ files w' !! output_file
       = Some {| fieldnames :=
                   ["bucket_name"; "size_gb"; "object_count"; "has_lifecycle";
                    "current_cost"; "recommendation"; "potential_savings"];
                 rows := results |}
    /\ provider w' = provider w.
Proof.
  intros Hopen. eexists. split.
  { cbv [export_to_csv write_csv bind print]. rewrite Hopen. reflexivity. }
  cbn [files provider add_line]. split; [apply lookup_insert_eq | done].
Qed.

(* ===================================================================== *)
(** ** Further properties: report file, live apply, command surface *)
(* ===================================================================== *)

(** X5. When the output file can be opened, [export_to_csv] returns normally
    and the file then holds the fixed header and the records given, in
    order, replacing whatever the file held; every other file is untouched,
    the provider is not contacted, and the confirmation line is printed. *)
Theorem export_writes_header_and_rows
    (results : list AuditRecord.t) (output_file : string) (w : World) :
  open_for_write_fault w output_file = None ->
  exists w',
    export_to_csv results output_file w = (Ok tt, w')
    /\ files w' !! output_file
       = Some {| fieldnames :=
                   ["bucket_name"; "size_gb"; "object_count"; "has_lifecycle";
                    "current_cost"; "recommendation"; "potential_savings"];
                 rows := results |}
    /\ (forall other, other <> output_file ->
                      files w' !! other = files w !! other)
    /\ stdout w' = stdout w ++ [LnReportSaved output_file]
    /\ api_calls w' = api_calls w
    /\ provider w' = provider w.
Proof.
  intros Hopen. eexists. split.
  { cbv [export_to_csv write_csv bind print]. rewrite Hopen. reflexivity. }
  cbn [files stdout api_calls provider add_line].
  split; [apply lookup_insert_eq|].
  split; [intros other Hother; by apply lookup_insert_ne|].
  by repeat split.
Qed.

Lemma export_writes_header_and_rows_witness :
  open_for_write_fault sample_world "report.csv" = None
  /\ exists w',
       export_to_csv [] "report.csv" sample_world = (Ok tt, w')
       /\ rows <$> files w' !! "report.csv" = Some [].
Proof.
  split; [reflexivity|].
  destruct (export_writes_header_and_rows [] "report.csv" sample_world eq_refl)
    as (w' & Hrun & Hfile & _).
  exists w'. split; [exact Hrun|]. by rewrite Hfile.
Defined.

(** X6. When the output file cannot be opened, [export_to_csv] raises the
    exception of the open and changes nothing: no file is written and no
    confirmation is printed. *)
Theorem export_failure_changes_nothing
    (results : list AuditRecord.t) (output_file : string) (w : World)
    (e : exn) :
  open_for_write_fault w output_file = Some e ->
  export_to_csv results output_file w = (Raise e, w).
Proof.
  intros Hopen. unfold export_to_csv. cbv zeta. apply bind_raise.
  unfold write_csv. by rewrite Hopen.
Qed.

Lemma export_failure_changes_nothing_witness :
  let w := {| provider := sample_provider; api_calls := []; clock := 0;
              config_files := config_files sample_world;
              open_for_write_fault := fun _ =>
                Some (OSError "Permission denied");
              files := ∅; stdout := [] |} in
  open_for_write_fault w "report.csv" = Some (OSError "Permission denied")
  /\ export_to_csv [] "report.csv" w
     = (Raise (OSError "Permission denied"), w).
Proof.
  intros w. split; [reflexivity|].
  exact (export_failure_changes_nothing [] "report.csv" w _ eq_refl).
Defined.

(** X7. In live mode [apply_lifecycle_policy] never raises: it sends exactly
    one write request carrying the bucket name and the policy, and returns
    [True] with the confirmation line when the provider accepts, [False]
    with the failure line when the provider raises. *)
Theorem live_apply_reports_provider_outcome
    (bucket_name : string) (policy : Policy) (w : World) :
  exists ok w',
    apply_lifecycle_policy bucket_name policy false w = (Ok ok, w')
    /\ api_calls w'
       = api_calls w ++ [CallPutBucketLifecycleConfiguration bucket_name policy]
    /\ files w' = files w
    /\ match on_put_bucket_lifecycle_configuration (provider w) bucket_name
               policy with
       | None => ok = true /\ stdout w' = stdout w ++ [LnApplied bucket_name]
       | Some e =>
           ok = false
           /\ stdout w' = stdout w ++ [LnApplyFailed bucket_name e]
           /\ provider w' = provider w
       end.
Proof.
  cbv [apply_lifecycle_policy try_except bind
       s3_client.put_bucket_lifecycle_configuration the_provider contact
       raise print ret].
  destruct (on_put_bucket_lifecycle_configuration (provider w) bucket_name
              policy) as [e|]; by eexists _, _.
Qed.

Lemma init_run (config_file : string) (w : World) :
  init config_file w
  = (match config_files w config_file with
     | Ok cfg => Ok {| config := cfg |}
     | Raise e => Raise e
     end, w).
Proof. unfold init. by destruct (config_files w config_file). Qed.

Lemma init_ok (config_file : string) (w : World) (cfg : Config) :
  config_files w config_file = Ok cfg ->
  init config_file w = (Ok {| config := cfg |}, w).
Proof. intros H. by rewrite init_run, H. Qed.

(** X8. When the configuration file cannot be loaded, [main] fails with that
    exception in every mode before anything else happens: the provider is
    not contacted, nothing is printed and no file is written. *)
Theorem main_aborts_when_config_unreadable
    (a : args.t) (w : World) (e : exn) :
  config_files w (args.config a) = Raise e ->
  main a w = (Raise e, w).
Proof.
  intros Hcfg. unfold main. apply bind_raise. by rewrite init_run, Hcfg.
Qed.

Lemma main_aborts_when_config_unreadable_witness :
  let a := {| args.mode := mode_audit; args.config := "missing.yaml";
              args.output := None; args.bucket := None;
              args.dry_run := false |} in
  config_files sample_world (args.config a)
  = Raise (OSError "No such file or directory")
  /\ main a sample_world
     = (Raise (OSError "No such file or directory"), sample_world).
Proof.
  intros a. split; [reflexivity|].
  exact (main_aborts_when_config_unreadable a sample_world _ eq_refl).
Defined.


(** X9. The [apply] mode is a stub: once the optimizer object is built it
    only prints that it is not implemented.  It sends nothing to the provider
    and writes no file, whatever the dry-run flag, the bucket filter and the
    output path. *)
Theorem apply_mode_only_prints
    (a : args.t) (w : World) (optimizer : Optimizer) (w0 : World) :
  args.mode a = mode_apply ->
  init (args.config a) w = (Ok optimizer, w0) ->
  exists w',
    main a w = (Ok tt, w')
    /\ stdout w' = stdout w0 ++ [LnApplyNotImplemented]
    /\ api_calls w' = api_calls w0
    /\ provider w' = provider w0
    /\ files w' = files w0.
Proof.
  intros Hmode Hinit. eexists. split.
  { unfold main. rewrite (bind_run _ _ _ _ _ Hinit), Hmode. reflexivity. }
  by repeat split.
Qed.

Lemma apply_mode_only_prints_witness :
  let a := {| args.mode := mode_apply; args.config := "config.yaml";
              args.output := Some "report.csv";
              args.bucket := Some "prod-logs-archive";
              args.dry_run := false |} in
  args.mode a = mode_apply
  /\ init (args.config a) sample_world = (Ok sample_self, sample_world)
  /\ exists w',
       main a sample_world = (Ok tt, w')
       /\ api_calls w' = [] /\ files w' = ∅.
Proof.
  intros a. split; [reflexivity|]. split; [reflexivity|].
  destruct (apply_mode_only_prints a sample_world sample_self sample_world
              eq_refl eq_refl) as (w' & Hrun & _ & Hcalls & _ & Hfiles).
  exists w'. split; [exact Hrun|]. split; [exact Hcalls | exact Hfiles].
Defined.

(** X10. The bucket filter and the dry-run flag of the command line are read
    and never used: two command lines that agree on mode, configuration file
    and output path behave the same. *)
Theorem main_ignores_bucket_filter_and_dry_run (a a' : args.t) (w : World) :
  args.mode a = args.mode a' ->
  args.config a = args.config a' ->
  args.output a = args.output a' ->
  main a w = main a' w.
Proof. intros Hmode Hconfig Houtput. unfold main. by rewrite Hmode, Hconfig, Houtput. Qed.

Lemma main_ignores_bucket_filter_and_dry_run_witness :
  let a' := {| args.mode := mode_audit; args.config := "config.yaml";
               args.output := Some "report.csv";
               args.bucket := Some "tiny-bucket";
               args.dry_run := true |} in
  args.mode sample_args = args.mode a'
  /\ args.config sample_args = args.config a'
  /\ args.output sample_args = args.output a'
  /\ main sample_args sample_world = main a' sample_world.
Proof.
  intros a'. do 3 (split; [reflexivity|]).
  exact (main_ignores_bucket_filter_and_dry_run sample_args a' sample_world
           eq_refl eq_refl eq_refl).
Defined.


(** The [audit] and [recommend] modes after the audit. *)
Lemma main_after_init (a : args.t) (w : World) (optimizer : Optimizer)
    (w0 : World) :
  args.mode a <> mode_apply ->
  init (args.config a) w = (Ok optimizer, w0) ->
  main a w
  = (let! results := audit_buckets optimizer in
     match output_given (args.output a) with
     | Some path => export_to_csv results path
     | None => ret tt
     end) w0.
Proof.
  intros Hmode Hinit. unfold main. rewrite (bind_run _ _ _ _ _ Hinit).
  by destruct (args.mode a).
Qed.

(** X11. In the [audit] and [recommend] modes, once the optimizer object is
    built, with a configuration that supplies the standard rate, a listing
    that succeeds and lifecycle reads that are all answered, the report is
    exported exactly when an output path is given and not empty: then the
    file holds one row per listed bucket, in listing order, under the fixed
    header; otherwise no file is touched.  The provider is left as it
    was. *)
Theorem main_exports_one_row_per_bucket
    (a : args.t) (w : World) (optimizer : Optimizer) (w0 : World) (rate : Qc)
    (buckets : list Bucket) :
  args.mode a <> mode_apply ->
  init (args.config a) w = (Ok optimizer, w0) ->
  configured_cost (config optimizer) "standard" = Some rate ->
  on_list_buckets (provider w0) = Ok buckets ->
  Forall (lifecycle_readable (provider w0)) buckets ->
  (forall path, args.output a = Some path ->
                open_for_write_fault w0 path = None) ->
  exists results w',
    main a w = (Ok tt, w')
    /\ AuditRecord.bucket_name <$> results = Name <$> buckets
    /\ provider w' = provider w0
    /\ match args.output a with
       | Some (String c path) =>
           files w' !! String c path
           = Some {| fieldnames :=
                       ["bucket_name"; "size_gb"; "object_count";
                        "has_lifecycle"; "current_cost"; "recommendation";
                        "potential_savings"];
                     rows := results |}
       | _ => files w' = files w0
       end.
Proof.
  intros Hmode Hinit Hrate Hlist Hread Hopen.
  destruct (audit_loop_completes optimizer rate w0 buckets Hrate Hlist Hread)
    as (locals & w1 & reads & Hloop & Hobs1 & _ & _ & Hrecords & _).
  destruct (audit_buckets_after_loop optimizer w0 buckets locals w1 Hloop)
    as (w2 & Hrun & Hobs2 & _).
  pose proof (observes_trans _ _ _ Hobs1 Hobs2)
    as (Hp & _ & _ & Ho & Hf & _).
  apply reported_names in Hrecords.
  exists (audit_results locals).
  rewrite (main_after_init a w optimizer w0 Hmode Hinit).
  rewrite (bind_run _ _ _ _ _ Hrun).
  destruct (args.output a) as [[|c path]|]; cbn [output_given Str.truthy].
  - by exists w2.
  - destruct (export_rows_run (audit_results locals) (String c path) w2)
      as (w3 & Hexp & Hfile & Hp3).
    { rewrite Ho. by apply Hopen. }
    exists w3. split; [exact Hexp|]. split; [exact Hrecords|].
    split; [congruence | exact Hfile].
  - by exists w2.
Qed.

Lemma main_exports_one_row_per_bucket_witness :
  args.mode sample_args <> mode_apply
  /\ init (args.config sample_args) managed_world
     = (Ok sample_self, managed_world)
  /\ configured_cost (config sample_self) "standard"
     = Some (Num.frac 23 1000)
  /\ on_list_buckets (provider managed_world) = on_list_buckets sample_provider
  /\ open_for_write_fault managed_world "report.csv" = None
  /\ exists results w',
       main sample_args managed_world = (Ok tt, w')
       /\ length results = 6%nat
       /\ rows <$> files w' !! "report.csv" = Some results.
Proof.
  split; [discriminate|]. split; [reflexivity|]. split; [by vm_compute|].
  split; [reflexivity|]. split; [reflexivity|].
  destruct (main_exports_one_row_per_bucket sample_args managed_world
              sample_self managed_world (Num.frac 23 1000) _
              ltac:(discriminate) eq_refl ltac:(by vm_compute) eq_refl)
    as (results & w' & Hrun & Hnames & _ & Hfile).
  { repeat constructor; by eexists. }
  { reflexivity. }
  exists results, w'. split; [exact Hrun|].
  split; [|cbn [args.output sample_args] in Hfile; by rewrite Hfile].
  apply (f_equal length) in Hnames. by rewrite !length_fmap in Hnames.
Defined.

(* ===================================================================== *)
(** ** Further properties: policy documents, reads, cost *)
(* ===================================================================== *)

Lemma append_inj_r (p a b : string) :
  String.append p a = String.append p b -> a = b.
Proof.
  induction p as [|c p IH]; [done|].
  rewrite !StrFacts.append_cons. intros H. injection H as H. by apply IH.
Qed.

Lemma of_nat_inj (n m : nat) : Str.of_nat n = Str.of_nat m -> n = m.
Proof.
  intros H. apply (f_equal NilEmpty.uint_of_string) in H.
  rewrite !of_nat_reads_back in H. injection H as H.
  apply (f_equal Nat.of_uint) in H.
  by rewrite !DecimalNat.Unsigned.of_to in H.
Qed.

Lemma rules_of_enumerate (k : nat) (l : list Transition) :
  Id <$> ((fun '(i, transition) => optimization_rule i transition)
          <$> enumerate_from k l)
  = (fun i => String.append "OptimizationRule" (Str.of_nat (i + 1)))
    <$> seq k (length l).
Proof.
  revert k. induction l as [|t l IH]; intros k; [done|].
  cbn [enumerate_from length seq]. rewrite !fmap_cons. by rewrite IH.
Qed.

Lemma transitions_of_enumerate (k : nat) (l : list Transition) :
  (fun t => (Days t, StorageClass t))
  <$> concat (Transitions
              <$> ((fun '(i, transition) => optimization_rule i transition)
                   <$> enumerate_from k l))
  = (fun t => (days t, storage_class t)) <$> l.
Proof.
  revert k. induction l as [|t l IH]; intros k; [done|].
  cbn [enumerate_from]. rewrite !fmap_cons, concat_cons, fmap_app, IH.
  reflexivity.
Qed.

(** X12. The rule identifiers of a generated policy document are pairwise
    distinct, whatever the number of transitions. *)
Theorem policy_rule_identifiers_are_distinct (recommendation : Recommendation) :
  NoDup (Id <$> Rules (generate_lifecycle_policy recommendation)).
Proof.
  unfold generate_lifecycle_policy. cbv zeta. cbn [Rules].
  rewrite rules_loop, app_nil_l. unfold enumerate.
  rewrite rules_of_enumerate. apply NoDup_fmap_2; [|apply NoDup_seq].
  intros i j H. apply append_inj_r, of_nat_inj in H. lia.
Qed.

(** X13. Reading the transitions back from a generated policy document, rule
    after rule, gives the day offsets and storage classes of the
    recommendation, in the same order: nothing is lost, added or
    reordered. *)
Theorem policy_document_keeps_transitions (recommendation : Recommendation) :
  (fun t => (Days t, StorageClass t))
  <$> concat (Transitions <$> Rules (generate_lifecycle_policy recommendation))
  = (fun t => (days t, storage_class t)) <$> transitions recommendation.
Proof.
  unfold generate_lifecycle_policy. cbv zeta. cbn [Rules].
  rewrite rules_loop, app_nil_l. apply transitions_of_enumerate.
Qed.

(** X14. When the metrics answer holds data points, the size read returns
    the average of the first one in the answer, whatever follows it, and the
    object-count read returns the whole part of that average (for a
    non-negative average [a], the integer [n] with [n <= a < n + 1]). *)
Theorem metric_reads_use_first_datapoint
    (bucket_name : string) (w : World) (d : Datapoint)
    (rest : list Datapoint) :
  (on_get_metric_statistics (provider w)
     (metric_request (clock w) "BucketSizeBytes" "StandardStorage" bucket_name)
   = Ok {| Datapoints := d :: rest |} ->
   exists w', get_bucket_size bucket_name w = (Ok (Average d), w'))
  /\ (on_get_metric_statistics (provider w)
        (metric_request (clock w) "NumberOfObjects" "AllStorageTypes"
           bucket_name)
      = Ok {| Datapoints := d :: rest |} ->
      exists n w',
        get_bucket_object_count bucket_name w = (Ok n, w')
        /\ (0 <= Average d ->
            (inject_Z n <= Average d)%Q /\ (Average d < inject_Z (n + 1))%Q)).
Proof.
  split; intros Hanswer.
  - destruct (get_bucket_size_traced (fun _ => True) bucket_name w I)
      as (size_bytes & w' & calls & Hrun & _ & _ & -> & _).
    exists w'. rewrite Hrun. unfold size_seen. by rewrite Hanswer.
  - destruct (get_bucket_object_count_traced (fun _ => True) bucket_name w I)
      as (n & w' & calls & Hrun & _ & _ & -> & _).
    eexists _, w'. split; [exact Hrun|].
    unfold count_seen. rewrite Hanswer. cbn [first_average Datapoints fmap
      option_fmap option_map default].
    intros Hpos. unfold Num.py_int, Num.ltb.
    rewrite bool_decide_eq_false_2 by (by apply Qcle_not_lt).
    split; [apply Qfloor_le | apply Qlt_floor].
Qed.

Lemma metric_reads_use_first_datapoint_witness :
  on_get_metric_statistics (provider sample_world)
    (metric_request (clock sample_world) "NumberOfObjects" "AllStorageTypes"
       "tiny-bucket")
  = Ok {| Datapoints := [ {| Average := Num.frac 25 2 |} ] |}
  /\ exists n w',
       get_bucket_object_count "tiny-bucket" sample_world = (Ok n, w')
       /\ (inject_Z n <= Num.frac 25 2)%Q
       /\ (Num.frac 25 2 < inject_Z (n + 1))%Q.
Proof.
  split; [reflexivity|].
  destruct (metric_reads_use_first_datapoint "tiny-bucket" sample_world
              {| Average := Num.frac 25 2 |} []) as [_ Hcount].
  destruct (Hcount eq_refl) as (n & w' & Hrun & Hbounds).
  exists n, w'. split; [exact Hrun|].
  apply Hbounds. by vm_compute.
Defined.

(** X15. Any answer of the lifecycle read that is not an exception counts as
    an existing policy, also an answer with an empty rule list or without the
    rule list: the bucket is recorded with a policy, "N/A" and zero savings
    and is not counted, whatever its size. *)
Theorem any_lifecycle_answer_counts_as_policy
    (self : Optimizer) (rate : Qc) (bucket : Bucket) (locals : AuditLocals)
    (w : World) (response : LifecycleResponse) :
  configured_cost (config self) "standard" = Some rate ->
  on_get_bucket_lifecycle_configuration (provider w) (Name bucket)
  = Ok response ->
  exists record locals' w',
    audit_bucket self bucket locals w = (Ok locals', w')
    /\ audit_results locals' = audit_results locals ++ [record]
    /\ AuditRecord.has_lifecycle record = true
    /\ AuditRecord.recommendation record = "N/A"
    /\ AuditRecord.potential_savings record = 0
    /\ buckets_without_lifecycle locals' = buckets_without_lifecycle locals
    /\ total_savings locals' = total_savings locals.
Proof.
  intros Hcfg Hanswer.
  destruct (audit_bucket_traced self rate Hcfg (fun p => p = provider w)
              bucket locals) with (w := w)
    as (locals' & w' & calls & Hrun & _ & _ & _
        & (record & Hresults & _ & Hhas & _ & HNA & Hzero) & _ & _
        & Hsavings & Hcount); [|done|].
  { intros p ->. by exists response. }
  by exists record, locals', w'.
Qed.

Lemma any_lifecycle_answer_counts_as_policy_witness :
  let w := {| provider :=
                {| on_list_buckets := Ok [];
                   on_get_bucket_lifecycle_configuration := fun _ =>
                     Ok {| resp_Rules := None |};
                   on_get_metric_statistics := fun _ =>
                     Ok {| Datapoints := [ {| Average := GB 900 |} ] |};
                   on_put_bucket_lifecycle_configuration := fun _ _ => None |};
              api_calls := []; clock := 0;
              config_files := config_files sample_world;
              open_for_write_fault := fun _ => None;
              files := ∅; stdout := [] |} in
  let locals := {| audit_results := []; total_size := 0; total_cost := 0;
                   total_savings := 0; buckets_without_lifecycle := 0 |} in
  configured_cost (config sample_self) "standard" = Some (Num.frac 23 1000)
  /\ on_get_bucket_lifecycle_configuration (provider w) "big-logs"
     = Ok {| resp_Rules := None |}
  /\ exists record locals' w',
       audit_bucket sample_self {| Name := "big-logs" |} locals w
       = (Ok locals', w')
       /\ audit_results locals' = [record]
       /\ AuditRecord.recommendation record = "N/A".
Proof.
  intros w locals. split; [by vm_compute|]. split; [reflexivity|].
  destruct (any_lifecycle_answer_counts_as_policy sample_self
              (Num.frac 23 1000) {| Name := "big-logs" |} locals w
              {| resp_Rules := None |} ltac:(by vm_compute) eq_refl)
    as (record & locals' & w' & Hrun & Hresults & _ & HNA & _).
  exists record, locals', w'.
  split; [exact Hrun|]. split; [exact Hresults | exact HNA].
Defined.


(** X16. A lifecycle read that raises costs the whole report: in the [audit]
    and [recommend] modes [main] ends with the [AttributeError] of the first
    listed bucket whose lifecycle read raises, whatever the provider's
    exception is, and no report file is written, although the buckets listed
    before it were audited. *)
Theorem lifecycle_read_error_leaves_no_report
    (a : args.t) (w : World) (optimizer : Optimizer) (w0 : World) (rate : Qc)
    (done : list Bucket) (bucket : Bucket) (rest : list Bucket) (e : exn) :
  args.mode a <> mode_apply ->
  init (args.config a) w = (Ok optimizer, w0) ->
  configured_cost (config optimizer) "standard" = Some rate ->
  on_list_buckets (provider w0) = Ok (done ++ bucket :: rest) ->
  Forall (lifecycle_readable (provider w0)) done ->
  on_get_bucket_lifecycle_configuration (provider w0) (Name bucket)
  = Raise e ->
  exists w',
    main a w = (Raise (AttributeError "NoSuchLifecycleConfiguration"), w')
    /\ files w' = files w0
    /\ provider w' = provider w0.
Proof.
  intros Hmode Hinit Hrate Hlist Hread Hanswer.
  destruct (audit_buckets_escapes optimizer rate w0 done bucket rest e Hrate
              Hlist Hread Hanswer)
    as (w' & Hrun & Hp & _ & _ & _ & Hf & _).
  exists w'. split; [|by split].
  rewrite (main_after_init a w optimizer w0 Hmode Hinit).
  by apply bind_raise.
Qed.

Lemma lifecycle_read_error_leaves_no_report_witness :
  args.mode sample_args <> mode_apply
  /\ init (args.config sample_args) sample_world
     = (Ok sample_self, sample_world)
  /\ configured_cost (config sample_self) "standard"
     = Some (Num.frac 23 1000)
  /\ on_get_bucket_lifecycle_configuration (provider sample_world)
       "prod-logs-archive"
     = Raise (ProviderError "NoSuchLifecycleConfiguration")
  /\ exists w',
       main sample_args sample_world
       = (Raise (AttributeError "NoSuchLifecycleConfiguration"), w')
       /\ files w' = ∅.
Proof.
  split; [discriminate|]. split; [reflexivity|]. split; [by vm_compute|].
  split; [reflexivity|].
  destruct (lifecycle_read_error_leaves_no_report sample_args sample_world
              sample_self sample_world (Num.frac 23 1000) []
              {| Name := "prod-logs-archive" |}
              [ {| Name := "tiny-bucket" |}; {| Name := "Media-Archive" |};
                {| Name := "exact-one-gb" |}; {| Name := "managed-backup" |};
                {| Name := "broken" |} ]
              (ProviderError "NoSuchLifecycleConfiguration")
              ltac:(discriminate) eq_refl ltac:(by vm_compute) eq_refl
              (Forall_nil _) eq_refl)
    as (w' & Hrun & Hfiles & _).
  exists w'. split; [exact Hrun | exact Hfiles].
Defined.

Lemma size_gb_positive (size_bytes : Qc) :
  Num.GiB <= size_bytes -> 0 < size_bytes / Num.GiB.
Proof.
  intros H. apply Qclt_le_trans with 1; [done|].
  apply Qcnot_lt_le. rewrite NumFacts.size_gb_lt_1. by apply Qcle_not_lt.
Qed.

Lemma minus_negative (x y : Qc) : x - y < 0 <-> x < y.
Proof.
  rewrite (Qclt_minus_iff (x - y) 0), (Qclt_minus_iff x y).
  by replace (0 + - (x - y)) with (y + - x) by ring.
Qed.

(** X17. The savings of a recommendation are negative exactly when the
    configured standard rate is below the unit cost of the chosen strategy
    (0.004, 0.00099 or 0.0025 per GB): nothing in the code keeps a
    recommendation from costing more than the current storage. *)
Theorem savings_negative_iff_rate_below_unit_cost
    (self : Optimizer) (rate : Qc) (bucket_name : string) (size_bytes : Qc)
    (object_count : Z) :
  configured_cost (config self) "standard" = Some rate ->
  Num.of_Z (2 ^ 30) <= size_bytes ->
  exists recommendation savings unit_cost,
    recommend_lifecycle_policy self bucket_name size_bytes object_count
    = Ok (Some recommendation, savings)
    /\ estimated_cost recommendation
       = size_bytes / Num.of_Z (2 ^ 30) * unit_cost
    /\ In unit_cost [Num.frac 4 1000; Num.frac 99 100000; Num.frac 25 10000]
    /\ (savings < 0 <-> rate < unit_cost).
Proof.
  rewrite <- NumFacts.GiB_pow2. intros Hcfg Hsize.
  destruct (recommend_large_unit_cost self rate bucket_name size_bytes
              object_count Hcfg Hsize)
    as (recommendation & unit_cost & Hrec & Hest & Hunit).
  exists recommendation,
    (size_bytes / Num.GiB * rate - size_bytes / Num.GiB * unit_cost),
    unit_cost.
  split; [exact Hrec|]. split; [exact Hest|]. split.
  - destruct (_ || _); [|destruct (Str.str_in _ _)];
      injection Hunit as -> _; simpl; tauto.
  - rewrite minus_negative.
    symmetry. apply Qcmult_lt_mono_pos_l. by apply size_gb_positive.
Qed.

Lemma savings_negative_iff_rate_below_unit_cost_witness :
  let self := {| config := {[ "analysis" := {[ "storage_costs" :=
                   {[ "standard" := Num.frac 1 10000 ]} ]} ]} |} in
  configured_cost (config self) "standard" = Some (Num.frac 1 10000)
  /\ Num.of_Z (2 ^ 30) <= GB 100
  /\ exists recommendation savings,
       recommend_lifecycle_policy self "app-logs" (GB 100) 0
       = Ok (Some recommendation, savings)
       /\ savings < 0.
Proof.
  intros self.
  assert (Hcfg : configured_cost (config self) "standard"
                 = Some (Num.frac 1 10000)) by (by vm_compute).
  assert (Hsize : Num.of_Z (2 ^ 30) <= GB 100) by (by vm_compute).
  split; [exact Hcfg|]. split; [exact Hsize|].
  destruct (savings_negative_iff_rate_below_unit_cost self (Num.frac 1 10000)
              "app-logs" (GB 100) 0 Hcfg Hsize)
    as (recommendation & savings & unit_cost & Hrec & _ & Hin & Hneg).
  exists recommendation, savings. split; [exact Hrec|].
  apply Hneg.
  destruct Hin as [<-|[<-|[<-|[]]]]; by vm_compute.
Defined.


(** X18. [calculate_current_cost] raises [KeyError] for the first key that
    the configuration lacks on the path analysis, storage_costs, storage
    class, whatever the size. *)
Theorem current_cost_raises_for_first_missing_key
    (self : Optimizer) (size_bytes : Qc) (storage_class : string) :
  (config self !! "analysis" = None ->
   calculate_current_cost self size_bytes storage_class
   = Raise (KeyError "analysis"))
  /\ (forall analysis,
        config self !! "analysis" = Some analysis ->
        analysis !! "storage_costs" = None ->
        calculate_current_cost self size_bytes storage_class
        = Raise (KeyError "storage_costs"))
  /\ (forall analysis storage_costs,
        config self !! "analysis" = Some analysis ->
        analysis !! "storage_costs" = Some storage_costs ->
        storage_costs !! storage_class = None ->
        calculate_current_cost self size_bytes storage_class
        = Raise (KeyError storage_class)).
Proof.
  unfold calculate_current_cost, getitem.
  split; [by intros ->|].
  split; [intros analysis -> Hnone; cbv [result_bind]; by rewrite Hnone|].
  intros analysis storage_costs -> Hcosts Hnone. cbv [result_bind].
  rewrite Hcosts. by rewrite Hnone.
Qed.

Lemma current_cost_raises_for_first_missing_key_witness :
  let self := {| config := ∅ |} in
  config self !! "analysis" = None
  /\ calculate_current_cost self (GB 1) "standard"
     = Raise (KeyError "analysis").
Proof.
  intros self. split; [apply lookup_empty|].
  destruct (current_cost_raises_for_first_missing_key self (GB 1) "standard")
    as (Hanalysis & _).
  apply Hanalysis, lookup_empty.
Defined.

(* ===================================================================== *)
(** ** Further properties: what the audit depends on *)
(* ===================================================================== *)

Lemma agree_refl (w : World) : agree w w.
Proof. by split. Qed.

Lemma agree_sym (w w' : World) : agree w w' -> agree w' w.
Proof. intros [H1 H2]. by split. Qed.

Lemma agree_trans (w1 w2 w3 : World) :
  agree w1 w2 -> agree w2 w3 -> agree w1 w3.
Proof. intros [H1 H2] [H3 H4]. split; congruence. Qed.

Lemma read_only_ret {A} (a : A) : read_only (ret a).
Proof. split; [intros w; apply agree_refl | done]. Qed.

Lemma read_only_lift {A} (r : result A) : read_only (lift r).
Proof. split; [intros w; apply agree_refl | done]. Qed.

Lemma read_only_print (l : Line) : read_only (print l).
Proof. split; [by intros w | done]. Qed.

Lemma read_only_now : read_only datetime_now.
Proof.
  split; [intros w; apply agree_refl|].
  intros w w' [_ Hclock]. unfold datetime_now. simpl. by rewrite Hclock.
Qed.

(** Sequencing and exception handling have the same shape: run [m], then go
    on with one of two continuations. *)
Lemma read_only_then {A B} (m : M A) (k : A -> M B) (h : exn -> M B) :
  read_only m -> (forall a, read_only (k a)) -> (forall e, read_only (h e)) ->
  read_only (fun w => match m w with
                      | (Ok a, w') => k a w'
                      | (Raise e, w') => h e w'
                      end).
Proof.
  intros [Hm1 Hm2] Hk Hh. split.
  - intros w. pose proof (Hm1 w) as H1.
    destruct (m w) as [[a|e] w1]; simpl in H1;
      (eapply agree_trans; [exact H1|]);
      [apply (proj1 (Hk a)) | apply (proj1 (Hh e))].
  - intros w w' Hagree. pose proof (Hm1 w) as H1. pose proof (Hm1 w') as H1'.
    pose proof (Hm2 w w' Hagree) as H2.
    destruct (m w) as [[a|e] w1], (m w') as [[a'|e'] w1']; simpl in *;
      try discriminate; injection H2 as <-;
      [apply (proj2 (Hk a)) | apply (proj2 (Hh e))];
      (apply (agree_trans _ w); [apply agree_sym, H1|]);
      (apply (agree_trans _ w'); [exact Hagree | exact H1']).
Qed.

Lemma read_only_bind {A B} (m : M A) (k : A -> M B) :
  read_only m -> (forall a, read_only (k a)) -> read_only (bind m k).
Proof.
  intros Hm Hk.
  apply (read_only_then m k (fun e w => (Raise e, w)) Hm Hk).
  intros e. split; [intros w; apply agree_refl | done].
Qed.

Lemma read_only_try {A} (body : M A) (handler : exn -> M A) :
  read_only body -> (forall e, read_only (handler e)) ->
  read_only (try_except body handler).
Proof.
  intros Hbody Hhandler.
  apply (read_only_then body (fun a w => (Ok a, w)) handler Hbody);
    [|exact Hhandler].
  intros a. split; [intros w; apply agree_refl | done].
Qed.

Lemma read_only_for_each {X S} (body : X -> S -> M S) (xs : list X) :
  (forall x s, read_only (body x s)) ->
  forall s, read_only (for_each xs body s).
Proof.
  intros Hbody. induction xs as [|x xs IH]; intros s; simpl.
  - apply read_only_ret.
  - apply read_only_bind; [apply Hbody | exact IH].
Qed.

(** The three requests that read: the provider answers, the log grows. *)

Lemma read_only_list_buckets : read_only s3_client.list_buckets.
Proof.
  split; [by intros w|].
  intros w w' [Hp _].
  cbv [s3_client.list_buckets bind the_provider contact lift]. simpl.
  by rewrite Hp.
Qed.

Lemma read_only_get_bucket_lifecycle_configuration (bucket_name : string) :
  read_only (s3_client.get_bucket_lifecycle_configuration bucket_name).
Proof.
  split; [by intros w|].
  intros w w' [Hp _].
  cbv [s3_client.get_bucket_lifecycle_configuration bind the_provider contact
       lift]. simpl.
  by rewrite Hp.
Qed.

Lemma read_only_get_metric_statistics (request : MetricRequest) :
  read_only (cloudwatch.get_metric_statistics request).
Proof.
  split; [by intros w|].
  intros w w' [Hp _].
  cbv [cloudwatch.get_metric_statistics bind the_provider contact lift].
  simpl. by rewrite Hp.
Qed.

Lemma read_only_raise {A} (e : exn) : read_only (raise (A := A) e).
Proof. split; [intros w; apply agree_refl | done]. Qed.

Lemma read_only_try_class {A} (body : M A) (class : result string)
    (first : M A) (other : exn -> M A) :
  read_only body -> read_only first -> (forall e, read_only (other e)) ->
  read_only (try_except_class body class first other).
Proof.
  intros Hbody Hfirst Hother.
  apply (read_only_then body (fun a w => (Ok a, w))
           (fun e w' =>
              match class with
              | Ok cls => if isinstance e cls then first w' else other e w'
              | Raise lookup_error => (Raise lookup_error, w')
              end) Hbody).
  - intros a. split; [intros w; apply agree_refl | done].
  - intros e. destruct class as [cls|lookup_error].
    + destruct (isinstance e cls); [exact Hfirst | apply Hother].
    + apply (read_only_raise lookup_error).
Qed.

Lemma read_only_get_bucket_lifecycle (bucket_name : string) :
  read_only (get_bucket_lifecycle bucket_name).
Proof.
  unfold get_bucket_lifecycle. apply read_only_try_class.
  - apply read_only_bind;
      [apply read_only_get_bucket_lifecycle_configuration|].
    intros response. apply read_only_ret.
  - apply read_only_ret.
  - intros e. apply read_only_bind; [apply read_only_print|].
    intros _. apply read_only_ret.
Qed.

Lemma read_only_get_bucket_size (bucket_name : string) :
  read_only (get_bucket_size bucket_name).
Proof.
  unfold get_bucket_size. apply read_only_try; [|intros e; apply read_only_ret].
  apply read_only_bind; [apply read_only_now|]. intros start_now.
  apply read_only_bind; [apply read_only_now|]. intros end_now.
  apply read_only_bind; [apply read_only_get_metric_statistics|].
  intros [[|d ds]]; apply read_only_ret.
Qed.

Lemma read_only_get_bucket_object_count (bucket_name : string) :
  read_only (get_bucket_object_count bucket_name).
Proof.
  unfold get_bucket_object_count.
  apply read_only_try; [|intros e; apply read_only_ret].
  apply read_only_bind; [apply read_only_now|]. intros start_now.
  apply read_only_bind; [apply read_only_now|]. intros end_now.
  apply read_only_bind; [apply read_only_get_metric_statistics|].
  intros [[|d ds]]; apply read_only_ret.
Qed.

Ltac read_only_prints :=
  repeat (apply read_only_bind; [apply read_only_print | intros _]).

Lemma read_only_audit_bucket
    (self : Optimizer) (bucket : Bucket) (locals : AuditLocals) :
  read_only (audit_bucket self bucket locals).
Proof.
  unfold audit_bucket. cbv zeta. read_only_prints.
  apply read_only_bind; [apply read_only_get_bucket_lifecycle|].
  intros lifecycle.
  apply read_only_bind; [apply read_only_get_bucket_size|].
  intros size_bytes.
  apply read_only_bind; [apply read_only_get_bucket_object_count|].
  intros object_count.
  apply read_only_bind; [apply read_only_lift|]. intros current_cost.
  read_only_prints.
  apply read_only_bind; [|intros [[[r s] c] t]; apply read_only_ret].
  destruct (_ && _); [|apply read_only_ret].
  apply read_only_bind; [apply read_only_lift|].
  intros [[r|] s]; [|apply read_only_ret].
  read_only_prints. apply read_only_ret.
Qed.

Lemma read_only_audit_buckets (self : Optimizer) :
  read_only (audit_buckets self).
Proof.
  unfold audit_buckets. apply read_only_bind.
  - unfold audit_loop. read_only_prints.
    apply read_only_bind; [apply read_only_now|]. intros now.
    read_only_prints.
    apply read_only_bind; [apply read_only_list_buckets|]. intros buckets.
    read_only_prints.
    apply read_only_bind; [|intros locals; apply read_only_ret].
    apply read_only_for_each. intros bucket locals.
    apply read_only_audit_bucket.
  - intros [buckets locals]. read_only_prints. apply read_only_ret.
Qed.


(** X19. Whether it returns a report or raises, [audit_buckets] leaves the
    provider as it is, and its outcome depends on the provider's answers and
    the time of the run only: not on the files, on what is on the terminal
    or on the requests sent before. *)
Theorem audit_outcome_depends_on_provider_and_clock_only
    (self : Optimizer) (w : World) :
  provider (snd (audit_buckets self w)) = provider w
  /\ (forall w',
        provider w' = provider w -> clock w' = clock w ->
        fst (audit_buckets self w') = fst (audit_buckets self w)).
Proof.
  destruct (read_only_audit_buckets self) as [Hkeep Hsame].
  destruct (Hkeep w) as [Hp Hc].
  split; [done|]. intros w' Hp' Hc'. by apply Hsame.
Qed.

(** X20. In the [audit] and [recommend] modes a listing that fails makes
    [main] fail with the same exception, and no report is written even when
    an output path is given. *)
Theorem main_writes_no_report_when_listing_fails
    (a : args.t) (w : World) (cfg : Config) (e : exn) :
  args.mode a <> mode_apply ->
  config_files w (args.config a) = Ok cfg ->
  on_list_buckets (provider w) = Raise e ->
  exists w',
    main a w = (Raise e, w')
    /\ files w' = files w
    /\ api_calls w' = api_calls w ++ [CallListBuckets].
Proof.
  intros Hmode Hcfg Hlist.
  assert (Haudit : exists w',
            audit_buckets {| config := cfg |} w = (Raise e, w')
            /\ files w' = files w
            /\ api_calls w' = api_calls w ++ [CallListBuckets]).
  { eexists. split.
    - unfold audit_buckets. apply bind_raise. unfold audit_loop.
      rewrite bind_print, bind_now, !bind_print.
      apply bind_raise. unfold get_all_buckets, s3_client.list_buckets.
      cbv [bind the_provider contact lift].
      cbn [provider add_line]. rewrite Hlist. reflexivity.
    - by cbn [api_calls files add_line]. }
  destruct Haudit as (w' & Hrun & Hfiles & Hcalls).
  exists w'. split; [|by split].
  unfold main. rewrite (bind_run _ _ _ _ _ (init_ok _ _ _ Hcfg)).
  destruct (args.mode a); [| |done]; by apply bind_raise.
Qed.

Lemma main_writes_no_report_when_listing_fails_witness :
  let w := {| provider :=
                {| on_list_buckets := Raise (ProviderError "ExpiredToken");
                   on_get_bucket_lifecycle_configuration :=
                     on_get_bucket_lifecycle_configuration sample_provider;
                   on_get_metric_statistics :=
                     on_get_metric_statistics sample_provider;
                   on_put_bucket_lifecycle_configuration :=
                     on_put_bucket_lifecycle_configuration sample_provider |};
              api_calls := []; clock := 0;
              config_files := config_files sample_world;
              open_for_write_fault := fun _ => None;
              files := ∅; stdout := [] |} in
  args.mode sample_args <> mode_apply
  /\ config_files w (args.config sample_args) = Ok sample_config
  /\ on_list_buckets (provider w) = Raise (ProviderError "ExpiredToken")
  /\ exists w',
       main sample_args w = (Raise (ProviderError "ExpiredToken"), w')
       /\ files w' = ∅.
Proof.
  intros w. split; [discriminate|]. split; [reflexivity|].
  split; [reflexivity|].
  destruct (main_writes_no_report_when_listing_fails sample_args w
              sample_config (ProviderError "ExpiredToken")
              ltac:(discriminate) eq_refl eq_refl)
    as (w' & Hrun & Hfiles & _).
  exists w'. split; [exact Hrun | exact Hfiles].
Defined.


(** X21. None of the three reads of a bucket prints: the size read and the
    object-count read swallow every failure in silence, and the lifecycle
    read never gets to its error message, whatever the provider answers. *)
Theorem per_bucket_reads_print_nothing (bucket_name : string) (w : World) :
  stdout (snd (get_bucket_lifecycle bucket_name w)) = stdout w
  /\ stdout (snd (get_bucket_size bucket_name w)) = stdout w
  /\ stdout (snd (get_bucket_object_count bucket_name w)) = stdout w.
Proof.
  split; [|split].
  - by rewrite get_bucket_lifecycle_run.
  - cbv [get_bucket_size try_except bind datetime_now
         cloudwatch.get_metric_statistics the_provider contact lift ret].
    by destruct (on_get_metric_statistics (provider w) _) as [[[|d ds]]|e].
  - cbv [get_bucket_object_count try_except bind datetime_now
         cloudwatch.get_metric_statistics the_provider contact lift ret].
    by destruct (on_get_metric_statistics (provider w) _) as [[[|d ds]]|e].
Qed.
